(** * conferatur.csv: a shallow embedding of the CSV-like reader

    The reader of [src/conferatur/csv.py] is a generator that pulls one
    character at a time from a text stream and drives a six-mode state
    machine.  It is embedded here as a pure step function over an explicit
    scan state; a run of the generator is the list of lines it yields
    together with the way it stops (exhaustion or a raised exception).
    The optional debug echo only prints and is left out. *)

From Stdlib Require Import String Ascii List ZArith Bool Lia Sorted.
Import ListNotations.
Local Open Scope string_scope.
Local Open Scope list_scope.
Local Open Scope Z_scope.

(** ** Python strings *)

(** [char in chars] for a one-character [char]. *)
Fixpoint char_in (char : ascii) (chars : string) : bool :=
  match chars with
  | EmptyString => false
  | String a rest => Ascii.eqb char a || char_in char rest
  end.

(** [a in b] for two strings: [a] occurs in [b] as a contiguous run. *)
Fixpoint str_in (a b : string) : bool :=
  String.prefix a b ||
  match b with
  | EmptyString => false
  | String _ rest => str_in a rest
  end.

(** [''.join(field)] for a list of one-character strings. *)
Definition join (field : list ascii) : string := string_of_list_ascii field.

(** [data.rstrip(chars)] on the characters of [data]. *)
Fixpoint rstrip_list (chars : string) (data : list ascii) : list ascii :=
  match data with
  | [] => []
  | c :: rest =>
      match rstrip_list chars rest with
      | [] => if char_in c chars then [] else [c]
      | kept => c :: kept
      end
  end.

Definition rstrip (chars : string) (data : string) : string :=
  string_of_list_ascii (rstrip_list chars (list_ascii_of_string data)).

(** [data.lstrip(chars)]; the reader never calls it, the reference
    splitter of the refinement statement does. *)
Fixpoint lstrip_list (chars : string) (data : list ascii) : list ascii :=
  match data with
  | [] => []
  | c :: rest => if char_in c chars then lstrip_list chars rest else data
  end.

Definition LF : ascii := "010"%char.
Definition CR : ascii := "013"%char.
Definition TAB : ascii := "009"%char.
Definition DQUOTE : ascii := "034"%char.

(** ** Dialects *)

Record Dialect := mkDialect {
  delimiter : option string;
  quotechar : option string;
  commentchar : option string;
  trimleft : option string;
  trimright : option string;
  ignoreemptylines : option bool
}.

(** [class Dialect]: every attribute is [None]. *)
Definition BaseDialect : Dialect :=
  mkDialect None None None None None None.

Definition whitespace_chars : string :=
  String " " (String TAB (String LF (String CR EmptyString))).

Definition DefaultDialect : Dialect :=
  mkDialect (Some ",") (Some (String DQUOTE EmptyString)) (Some "#")
            (Some whitespace_chars) (Some whitespace_chars) (Some true).

Definition WhitespaceDialect : Dialect :=
  mkDialect (Some (String " " (String TAB EmptyString)))
            (quotechar DefaultDialect) (commentchar DefaultDialect)
            (trimleft DefaultDialect) (trimright DefaultDialect)
            (ignoreemptylines DefaultDialect).

Definition known_dialects : list (string * Dialect) :=
  [("default", DefaultDialect); ("whitespace", WhitespaceDialect)]%string.

Fixpoint lookup_dialect (name : string) (table : list (string * Dialect))
  : option Dialect :=
  match table with
  | [] => None
  | (k, d) :: rest => if String.eqb name k then Some d else lookup_dialect name rest
  end.

(** ** Exceptions *)

Inductive Exception :=
| InvalidDialectError
| UnknownDialectError (name : string)
| UnclosedQuoteError (message : string) (line char index : option Z)
| UnallowedQuoteError (message : string) (line char index : Z)
| TypeError.

(** ** Modes, lines and the scan state *)

Inductive Mode :=
| MODE_FIRST
| MODE_OUTSIDE
| MODE_INSIDE
| MODE_INSIDE_QUOTED
| MODE_INSIDE_QUOTED_QUOTE
| MODE_COMMENT.

Definition mode_eqb (a b : Mode) : bool :=
  match a, b with
  | MODE_FIRST, MODE_FIRST
  | MODE_OUTSIDE, MODE_OUTSIDE
  | MODE_INSIDE, MODE_INSIDE
  | MODE_INSIDE_QUOTED, MODE_INSIDE_QUOTED
  | MODE_INSIDE_QUOTED_QUOTE, MODE_INSIDE_QUOTED_QUOTE
  | MODE_COMMENT, MODE_COMMENT => true
  | _, _ => false
  end.

Definition Field := string.

(** [class Line(list)]: a list of fields with a [lineno] attribute. *)
Record Line := mkLine {
  items : list Field;
  lineno : Z
}.

(** The local variables of [Reader.__iter__] that live across characters. *)
Record State := mkState {
  mode : Mode;
  field : list ascii;
  line : list Field;
  cur_line : Z;
  cur_char : Z;
  idx : Z;
  last_quote_line : option Z;
  last_quote_char : option Z;
  last_quote_idx : option Z
}.

Definition initial_state : State :=
  mkState MODE_FIRST [] [] 1 0 0 None None None.

Definition set_mode (m : Mode) (st : State) : State :=
  mkState m (field st) (line st) (cur_line st) (cur_char st) (idx st)
          (last_quote_line st) (last_quote_char st) (last_quote_idx st).

Definition set_field (f : list ascii) (st : State) : State :=
  mkState (mode st) f (line st) (cur_line st) (cur_char st) (idx st)
          (last_quote_line st) (last_quote_char st) (last_quote_idx st).

Definition newlinechars : string := String LF (String CR EmptyString).

Section Reader.

Variable dialect : Dialect.

Definition _trimright (data : string) : string :=
  match trimright dialect with
  | None => data
  | Some chars => rstrip chars data
  end.

Definition _is_ignore_left (char : ascii) : bool :=
  match trimleft dialect with
  | None => false
  | Some chars => char_in char chars
  end.

Definition _is_ignore_right (char : ascii) : bool :=
  match trimright dialect with
  | None => false
  | Some chars => char_in char chars
  end.

Definition _is_comment (char : ascii) : bool :=
  match commentchar dialect with
  | None => false
  | Some chars => char_in char chars
  end.

Definition _is_quote (char : ascii) : bool :=
  match quotechar dialect with
  | None => false
  | Some q => String.eqb (String char EmptyString) q
  end.

(** [char in self._dialect.delimiter]; [None] stands for the [TypeError]
    Python raises when the attribute is [None]. *)
Definition _is_delimiter (char : ascii) : option bool :=
  match delimiter dialect with
  | None => None
  | Some chars => Some (char_in char chars)
  end.

(** [self._dialect.delimiter in self._dialect.trimright], a containment
    test between two strings; [None] stands for the [TypeError] raised
    when either attribute is [None]. *)
Definition compute_delimiter_is_whitespace : option bool :=
  match trimright dialect, delimiter dialect with
  | Some tr, Some dl => Some (str_in dl tr)
  | _, _ => None
  end.

Variable delimiter_is_whitespace : bool.

Definition next_field (st : State) : State :=
  let joined := join (field st) in
  let trimmed :=
    if negb (mode_eqb (mode st) MODE_INSIDE_QUOTED_QUOTE)
    then _trimright joined else joined in
  mkState MODE_OUTSIDE [] (line st ++ [trimmed])
          (cur_line st) (cur_char st) (idx st)
          (last_quote_line st) (last_quote_char st) (last_quote_idx st).

Definition yield_line (st : State) : Line * State :=
  let st1 :=
    if negb (mode_eqb (mode st) MODE_OUTSIDE && delimiter_is_whitespace)
    then next_field st else st in
  (mkLine (line st1) (cur_line st1),
   mkState MODE_FIRST [] [] (cur_line st1) (cur_char st1) (idx st1)
           (last_quote_line st1) (last_quote_char st1) (last_quote_idx st1)).

(** What one turn of the [for char in readchar] loop does. *)
Inductive Step :=
| Continue (st : State)
| Yield (l : Line) (st : State)
| Raise (e : Exception).

Definition yielding (p : Line * State) : Step := Yield (fst p) (snd p).

(** The counters are advanced before the character is dispatched. *)
Definition advance (st : State) (char : ascii) : State :=
  let is_newline := char_in char newlinechars in
  mkState (mode st) (field st) (line st)
          (if is_newline then cur_line st + 1 else cur_line st)
          (if is_newline then 0 else cur_char st + 1)
          (idx st + 1)
          (last_quote_line st) (last_quote_char st) (last_quote_idx st).

Definition step (st0 : State) (char : ascii) : Step :=
  let is_newline := char_in char newlinechars in
  let st := advance st0 char in
  match mode st with
  | MODE_COMMENT =>
      Continue (if is_newline then set_mode MODE_FIRST st else st)
  | MODE_OUTSIDE | MODE_FIRST =>
      if is_newline then
        if negb (mode_eqb (mode st) MODE_FIRST)
        then yielding (yield_line st) else Continue st
      else if _is_ignore_left char then Continue st
      else if mode_eqb (mode st) MODE_FIRST && _is_comment char
      then Continue (set_mode MODE_COMMENT st)
      else if _is_quote char then
        Continue (mkState MODE_INSIDE_QUOTED (field st) (line st)
                          (cur_line st) (cur_char st) (idx st)
                          (Some (cur_line st)) (Some (cur_char st))
                          (Some (idx st)))
      else
        match _is_delimiter char with
        | None => Raise TypeError
        | Some true => Continue (next_field st)
        | Some false =>
            Continue (set_field (field st ++ [char]) (set_mode MODE_INSIDE st))
        end
  | MODE_INSIDE =>
      if _is_quote char then
        Raise (UnallowedQuoteError "Quote not allowed here"
                                   (cur_line st) (cur_char st) (idx st))
      else if is_newline then yielding (yield_line st)
      else
        match _is_delimiter char with
        | None => Raise TypeError
        | Some true => Continue (next_field st)
        | Some false => Continue (set_field (field st ++ [char]) st)
        end
  | MODE_INSIDE_QUOTED_QUOTE =>
      if _is_quote char then
        Continue (set_mode MODE_INSIDE_QUOTED (set_field (field st ++ [char]) st))
      else
        match _is_delimiter char with
        | None => Raise TypeError
        | Some true => Continue (next_field st)
        | Some false =>
            if is_newline then yielding (yield_line st)
            else Raise (UnallowedQuoteError "Single quote inside quoted field"
                                            (cur_line st) (cur_char st) (idx st))
        end
  | MODE_INSIDE_QUOTED =>
      if _is_quote char then Continue (set_mode MODE_INSIDE_QUOTED_QUOTE st)
      else Continue (set_field (field st ++ [char]) st)
  end.

(** How a run of the generator stops. *)
Inductive Outcome :=
| Exhausted
| Raised (e : Exception).

(** The code after the loop. *)
Definition finish (st : State) : list Line * Outcome :=
  match mode st with
  | MODE_INSIDE_QUOTED =>
      ([], Raised (UnclosedQuoteError "Unexpected end" (last_quote_line st)
                                      (last_quote_char st) (last_quote_idx st)))
  | MODE_INSIDE_QUOTED_QUOTE | MODE_OUTSIDE | MODE_INSIDE =>
      ([fst (yield_line st)], Exhausted)
  | MODE_FIRST | MODE_COMMENT => ([], Exhausted)
  end.

Definition emit (l : Line) (r : list Line * Outcome) : list Line * Outcome :=
  (l :: fst r, snd r).

(** The loop over the remaining characters, then [finish]. *)
Fixpoint run (st : State) (input : list ascii) : list Line * Outcome :=
  match input with
  | [] => finish st
  | char :: rest =>
      match step st char with
      | Continue st' => run st' rest
      | Yield l st' => emit l (run st' rest)
      | Raise e => ([], Raised e)
      end
  end.

(** The scan state after the characters of [input], if no exception was
    raised on the way, with the lines yielded so far. *)
Fixpoint scan (st : State) (input : list ascii) : option (list Line * State) :=
  match input with
  | [] => Some ([], st)
  | char :: rest =>
      match step st char with
      | Continue st' => scan st' rest
      | Yield l st' =>
          match scan st' rest with
          | Some (ls, st'') => Some (l :: ls, st'')
          | None => None
          end
      | Raise _ => None
      end
  end.

End Reader.

(** [Reader.__iter__] run to the end on the characters the stream still
    holds: the lines yielded, in order, and how the generator stopped. *)
Definition Reader_iter (dialect : Dialect) (input : list ascii)
  : list Line * Outcome :=
  match compute_delimiter_is_whitespace dialect with
  | None => ([], Raised TypeError)
  | Some diw => run dialect diw initial_state input
  end.

Definition chars (s : string) : list ascii := list_ascii_of_string s.

(** ** Construction: [Reader.__init__] and [reader] *)

(** The values [reader] can be handed as its [dialect] argument.  A class
    either derives from [Dialect], and is then known by its attributes, or
    does not.  [PyInt] stands for the values that are neither [None], a
    string nor a class. *)
Inductive PyClass :=
| DialectSubclass (d : Dialect)
| OtherClass (name : string).

Inductive PyValue :=
| PyNone
| PyStr (s : string)
| PyClassObj (c : PyClass)
| PyInt (n : Z).

(** A text stream, as the characters it has not handed out yet. *)
Definition TextIO := list ascii.

(** [file.read(1)]: the next character, or nothing at the end. *)
Definition read1 (file : TextIO) : option ascii * TextIO :=
  match file with
  | [] => (None, [])
  | c :: rest => (Some c, rest)
  end.

Record Reader := mkReader {
  line_num : Z;
  _dialect : Dialect;
  _file : TextIO;
  _debug : bool
}.

(** Construction threads the stream through, so that what it consumed can
    be read off the second component. *)
Definition Reader_init (file : TextIO) (dialect : PyValue) (debug : option bool)
  : (Exception + Reader) * TextIO :=
  match dialect with
  | PyClassObj (DialectSubclass d) =>
      (inr (mkReader 0 d file (match debug with Some b => b | None => false end)),
       file)
  | PyClassObj (OtherClass _) => (inl InvalidDialectError, file)
  | PyNone | PyStr _ | PyInt _ => (inl TypeError, file)
  end.

Definition reader (file : TextIO) (dialect : PyValue)
  : (Exception + Reader) * TextIO :=
  match dialect with
  | PyNone => Reader_init file (PyClassObj (DialectSubclass DefaultDialect)) None
  | PyStr name =>
      match lookup_dialect name known_dialects with
      | None => (inl (UnknownDialectError name), file)
      | Some d => Reader_init file (PyClassObj (DialectSubclass d)) None
      end
  | other => Reader_init file other None
  end.

(** Iterating a constructed reader to the end of its stream. *)
Definition Reader_lines (r : Reader) : list Line * Outcome :=
  Reader_iter (_dialect r) (_file r).

(** ** Source positions *)

Definition is_newline (char : ascii) : bool := char_in char newlinechars.

(** The characters of the last, unfinished line, read backwards from the
    end of what was consumed. *)
Fixpoint since_newline (reversed : list ascii) : list ascii :=
  match reversed with
  | [] => []
  | c :: rest => if is_newline c then [] else c :: since_newline rest
  end.

(** Line of the last character of [consumed], counting from 1, a newline
    character belonging to the line it opens. *)
Definition line_at (consumed : list ascii) : Z :=
  1 + Z.of_nat (length (filter is_newline consumed)).

(** Column of the last character of [consumed]: how many characters were
    consumed since the last newline character. *)
Definition column_at (consumed : list ascii) : Z :=
  Z.of_nat (length (since_newline (rev consumed))).

Definition index_at (consumed : list ascii) : Z :=
  Z.of_nat (length consumed).

(** The mode the reader is in after [consumed], if it got that far. *)
Definition mode_after (dialect : Dialect) (diw : bool) (consumed : list ascii)
  : option Mode :=
  match scan dialect diw initial_state consumed with
  | Some (_, st) => Some (mode st)
  | None => None
  end.

Definition quoted_mode (m : option Mode) : bool :=
  match m with
  | Some MODE_INSIDE_QUOTED | Some MODE_INSIDE_QUOTED_QUOTE => true
  | _ => false
  end.

Definition unquoted_start_mode (m : option Mode) : bool :=
  match m with
  | Some MODE_FIRST | Some MODE_OUTSIDE => true
  | _ => false
  end.

(** ** The split-and-trim reference *)

(** Cut [data] at every character of [delims]; the pieces between two cuts,
    before the first and after the last are all kept, empty or not. *)
Fixpoint split_on (delims : string) (data : list ascii) : list (list ascii) :=
  match data with
  | [] => [[]]
  | c :: rest =>
      if char_in c delims then [] :: split_on delims rest
      else
        match split_on delims rest with
        | [] => [[c]]
        | piece :: pieces => (c :: piece) :: pieces
        end
  end.

Definition trim_left (dialect : Dialect) (piece : list ascii) : list ascii :=
  match trimleft dialect with
  | None => piece
  | Some cs => lstrip_list cs piece
  end.

Definition trim_right (dialect : Dialect) (piece : list ascii) : list ascii :=
  match trimright dialect with
  | None => piece
  | Some cs => rstrip_list cs piece
  end.

Definition trim_piece (dialect : Dialect) (piece : list ascii) : Field :=
  join (trim_right dialect (trim_left dialect piece)).

(** The reference: split the line on the delimiter characters, trim each
    piece on both sides. *)
Definition reference_fields (dialect : Dialect) (ln : list ascii) : list Field :=
  match delimiter dialect with
  | None => []
  | Some delims => map (trim_piece dialect) (split_on delims ln)
  end.

Definition input_lines (input : list ascii) : list (list ascii) :=
  split_on newlinechars input.

(** A line with nothing but left-trim characters on it. *)
Definition blank_line (dialect : Dialect) (ln : list ascii) : bool :=
  forallb (_is_ignore_left dialect) ln.

Definition plain_char (dialect : Dialect) (c : ascii) : bool :=
  negb (_is_quote dialect c) && negb (_is_comment dialect c).

(** No character of [a] is a character of [b]. *)
Fixpoint str_disjoint (a b : string) : bool :=
  match a with
  | EmptyString => true
  | String c rest => negb (char_in c b) && str_disjoint rest b
  end.

(** Every character of [a] is a character of [b]. *)
Fixpoint str_subset (a b : string) : bool :=
  match a with
  | EmptyString => true
  | String c rest => char_in c b && str_subset rest b
  end.

Definition delimiter_not_left_trimmed (dialect : Dialect) : bool :=
  match delimiter dialect, trimleft dialect with
  | Some dl, Some tl => str_disjoint dl tl
  | _, _ => true
  end.

(** ** Quoting a field *)

(** Every quote character doubled. *)
Definition double_quotes (q : ascii) (s : list ascii) : list ascii :=
  flat_map (fun c => if Ascii.eqb c q then [q; q] else [c]) s.

(** The field wrapped in quote characters, its own quote characters doubled. *)
Definition quote_field (q : ascii) (s : list ascii) : list ascii :=
  q :: double_quotes q s ++ [q].

(** A dialect in which [q] opens a quoted field at the start of a line. *)
Definition quotes_with (dialect : Dialect) (q : ascii) : bool :=
  match quotechar dialect with
  | Some qs => String.eqb qs (String q EmptyString)
  | None => false
  end
  && negb (is_newline q)
  && negb (_is_ignore_left dialect q)
  && negb (_is_comment dialect q).

(** A dialect subclass with the delimiter characters of the whitespace
    dialect in the other order. *)
Definition TabSpaceDialect : Dialect :=
  mkDialect (Some (String TAB (String " " EmptyString)))
            (quotechar DefaultDialect) (commentchar DefaultDialect)
            (trimleft DefaultDialect) (trimright DefaultDialect)
            (ignoreemptylines DefaultDialect).

(** ** Invariants and conditions of the statements below *)

(** Outside a field, at least one field was already closed into the row:
    [MODE_OUTSIDE] is only ever entered through [next_field]. *)
Definition row_started (st : State) : Prop :=
  mode st = MODE_OUTSIDE -> line st <> [].

(** At the start of a line and inside a comment nothing is pending; between
    two fields the field buffer is empty. *)
Definition tidy (st : State) : Prop :=
  match mode st with
  | MODE_FIRST | MODE_COMMENT => field st = [] /\ line st = []
  | MODE_OUTSIDE => field st = []
  | _ => True
  end.

(** The rows of a run depend on the mode, the two buffers and the line
    counter only: not on the column, the index or the last quote seen. *)
Definition same_rows (a b : State) : Prop :=
  mode a = mode b /\ field a = field b /\ line a = line b
  /\ cur_line a = cur_line b.

(** No newline character in [body]. *)
Definition no_newline (body : list ascii) : bool :=
  forallb (fun x => negb (is_newline x)) body.

(** The two places of the loop that raise [UnallowedQuoteError]. *)
Definition quote_in_unquoted_field (d : Dialect) (st : State) (c : ascii) : Prop :=
  mode st = MODE_INSIDE /\ _is_quote d c = true.

Definition closing_quote_not_doubled (d : Dialect) (st : State) (c : ascii) : Prop :=
  mode st = MODE_INSIDE_QUOTED_QUOTE
  /\ _is_quote d c = false
  /\ _is_delimiter d c = Some false
  /\ is_newline c = false.

(** [q], the character that follows [pre], opened a quoted field, and the
    reader has not left that field at any point of [post]. *)
Definition opening_quote (d : Dialect) (diw : bool) (pre : list ascii) (q : ascii) (post : list ascii)
  : Prop :=
  _is_quote d q = true
  /\ is_newline q = false
  /\ unquoted_start_mode (mode_after d diw pre) = true
  /\ forall k, quoted_mode (mode_after d diw (pre ++ q :: firstn k post)) = true.

(** The fields of the line [yield_line] would hand out in state [st]. *)
Definition flushed (d : Dialect) (diw : bool) (st : State) : list Field :=
  items (fst (yield_line d diw st)).

(** The fields the reference gives for what is left of a line, [ln], when
    the characters [f] of its current piece were already collected. *)
Definition pending_fields (d : Dialect) (delims : string) (f ln : list ascii)
  : list Field :=
  match split_on delims ln with
  | piece :: pieces =>
      join (trim_right d (f ++ piece)) :: map (trim_piece d) pieces
  | [] => []
  end.

(** The reference for a whole input: the reference fields of every line
    that is not blank, in order. *)
Definition reference_rows (d : Dialect) (input : list ascii) : list (list Field) :=
  map (reference_fields d)
      (filter (fun ln => negb (blank_line d ln)) (input_lines input)).

(** ** Debug rendering *)

(** [0x00 <= codepoint <= 0x1f or 0x7f <= codepoint <= 0x9f]. *)
Definition is_control (codepoint : Z) : bool :=
  ((0 <=? codepoint) && (codepoint <=? 31))
  || ((127 <=? codepoint) && (codepoint <=? 159)).

(** [_debug_repr], on the code point of its one-character argument:
    [chr(0x2400 | codepoint)] for a control character, the character itself
    otherwise. *)
Definition _debug_repr (codepoint : Z) : Z :=
  if is_control codepoint then Z.lor 9216 codepoint else codepoint.

(** ** Measures of inputs and rows *)

(** How many newline characters there are in [input]. *)
Definition newlines (input : list ascii) : Z :=
  Z.of_nat (length (filter is_newline input)).

Definition quote_free (d : Dialect) (input : list ascii) : bool :=
  forallb (fun c => negb (_is_quote d c)) input.

(** Nothing but newline and left-trim characters. *)
Definition blank_input (d : Dialect) (input : list ascii) : bool :=
  forallb (fun c => is_newline c || _is_ignore_left d c) input.

Definition is_delimiter_char (d : Dialect) (c : ascii) : bool :=
  match _is_delimiter d c with
  | Some b => b
  | None => false
  end.

(** The last character of a string of characters, if it has one. *)
Definition last_char (cs : list ascii) : option ascii :=
  match rev cs with
  | [] => None
  | c :: _ => Some c
  end.

(** A field as an unquoted field can come out: no delimiter and no newline
    character in it, no left-trim character in front, no right-trim
    character at the end. *)
Definition trimmed_field (d : Dialect) (f : Field) : bool :=
  let cs := list_ascii_of_string f in
  forallb (fun c => negb (is_delimiter_char d c) && negb (is_newline c)) cs
  && match cs with
     | [] => true
     | c :: _ => negb (_is_ignore_left d c)
     end
  && match last_char cs with
     | None => true
     | Some c => negb (_is_ignore_right d c)
     end.

Definition nonempty_field (f : Field) : bool :=
  negb (String.eqb f EmptyString).

(** A dialect in which runs of delimiters collapse: the delimiter and the
    right-trim characters are all left-trim characters, and the containment
    test of the first turn succeeds. *)
Definition collapsing (d : Dialect) : bool :=
  match delimiter d, trimleft d, trimright d with
  | Some dl, Some tl, Some tr =>
      str_subset dl tl && str_subset tr tl && str_in dl tr
  | _, _, _ => false
  end.

(** How many delimiter characters there are on a line. *)
Definition count_delimiters (d : Dialect) (ln : list ascii) : nat :=
  length (filter (is_delimiter_char d) ln).

(** The dialect with another comment character. *)
Definition with_commentchar (d : Dialect) (cc : option string) : Dialect :=
  mkDialect (delimiter d) (quotechar d) cc (trimleft d) (trimright d)
            (ignoreemptylines d).

(** The line, column and index an exception carries, if it is one of the
    two raised while parsing. *)
Definition error_position (e : Exception) : option (Z * Z * Z) :=
  match e with
  | UnallowedQuoteError _ l c i => Some (l, c, i)
  | UnclosedQuoteError _ (Some l) (Some c) (Some i) => Some (l, c, i)
  | _ => None
  end.

(** ** Writing quoted rows *)

(** One row: every field quoted, a delimiter character between two fields. *)
Fixpoint quote_row (q dl : ascii) (row : list (list ascii)) : list ascii :=
  match row with
  | [] => []
  | [f] => quote_field q f
  | f :: rest => quote_field q f ++ dl :: quote_row q dl rest
  end.

(** A table: every row followed by the newline character [nl]. *)
Fixpoint quote_table (q dl nl : ascii) (rows : list (list (list ascii)))
  : list ascii :=
  match rows with
  | [] => []
  | row :: rest => quote_row q dl row ++ nl :: quote_table q dl nl rest
  end.

(** [dl] separates and [nl] ends the rows of a table quoted with [q]. *)
Definition separates (d : Dialect) (q dl nl : ascii) : bool :=
  quotes_with d q
  && is_delimiter_char d dl
  && negb (_is_quote d dl)
  && is_newline nl
  && negb (is_delimiter_char d nl).

(** ** Invariants of runs on unquoted input *)

Definition field_char (d : Dialect) (c : ascii) : bool :=
  negb (is_delimiter_char d c) && negb (is_newline c).

(** A field buffer as it can be outside quotes: field characters only, the
    first of them not a left-trim character. *)
Definition buffer_ok (d : Dialect) (f : list ascii) : bool :=
  forallb (field_char d) f
  && match f with
     | [] => true
     | c :: _ => negb (_is_ignore_left d c)
     end.

(** Outside quotes: the buffer is in use inside a field only, and the
    fields closed so far satisfy [good]. *)
Definition unquoted_inv (d : Dialect) (good : Field -> bool) (st : State)
  : Prop :=
  match mode st with
  | MODE_INSIDE_QUOTED | MODE_INSIDE_QUOTED_QUOTE => False
  | MODE_INSIDE => field st <> [] /\ buffer_ok d (field st) = true
  | MODE_FIRST | MODE_OUTSIDE | MODE_COMMENT => field st = []
  end
  /\ forallb good (line st) = true.

(** ** Splitting on runs of delimiters *)

Definition nonempty {A} (l : list A) : bool := negb (Nat.eqb (length l) 0).

(** The pieces of a line between runs of delimiter characters: the line
    split on every delimiter character, the empty pieces dropped. *)
Definition words (d : Dialect) (ln : list ascii) : list Field :=
  match delimiter d with
  | Some delims => map join (filter nonempty (split_on delims ln))
  | None => []
  end.

(** The reference for a whole input: the words of every line that has
    some, in order. *)
Definition word_rows (d : Dialect) (input : list ascii) : list (list Field) :=
  filter nonempty (map (words d) (input_lines input)).

(** A collapsing dialect that trims nothing but delimiter and newline
    characters. *)
Definition trims_delimiters_only (d : Dialect) : bool :=
  collapsing d
  && match delimiter d, trimleft d with
     | Some dl, Some tl => str_subset tl (dl ++ newlinechars)
     | _, _ => false
     end.

(** The words of what is left of a line, [ln], when the characters [f] of
    the current word were already collected. *)
Definition pending_words (delims : string) (f ln : list ascii) : list Field :=
  match split_on delims ln with
  | piece :: pieces => join (f ++ piece) :: map join (filter nonempty pieces)
  | [] => []
  end.

(** A buffer that right trimming leaves whole: no character of it is one
    of [cs]. *)
Definition kept_whole (cs : string) (f : list ascii) : bool :=
  forallb (fun c => negb (char_in c cs)) f.

(** Left-trim characters that are not newlines: the indentation of a line. *)
Definition indentation (d : Dialect) (ws : list ascii) : bool :=
  forallb (fun x => _is_ignore_left d x && negb (is_newline x)) ws.

(** ** Rows yielded inside the loop *)

(** The rows the generator yields while it consumes [input], the end of
    the stream not yet seen: the [yield] statements of the loop alone, up to
    an exception if one is raised. *)
Fixpoint yielded (d : Dialect) (diw : bool) (st : State) (input : list ascii)
  : list Line :=
  match input with
  | [] => []
  | char :: rest =>
      match step d diw st char with
      | Continue st' => yielded d diw st' rest
      | Yield l st' => l :: yielded d diw st' rest
      | Raise _ => []
      end
  end.

Definition rows_before_end (d : Dialect) (input : list ascii) : list Line :=
  match compute_delimiter_is_whitespace d with
  | None => []
  | Some diw => yielded d diw initial_state input
  end.

(** ** Result printers: benchmarkstt/output/core.py *)

(** Standard output, as the text printed so far; [print(text)] appends the
    text and a newline, [print(text, end='')] the text alone. *)
Definition Stdout := string.

Definition NL : string := String LF EmptyString.

Definition print (text : string) (out : Stdout) : Stdout :=
  (out ++ text ++ NL)%string.

Definition print_no_end (text : string) (out : Stdout) : Stdout :=
  (out ++ text)%string.

(** The exceptions of the printers. *)
Inductive OutputError :=
| ValueError (message : string)
| NoneTypeError
| NoneAttributeError.

Section Printers.

(** The values handed to [result], and [Schema.dumps], which the [Json]
    printer encodes them with; [writerow] is what the writer of Python's
    [csv] module prints for a row of two values. *)
Variable Value : Type.
Variable dumps : Value -> string.
Variable writerow : Value -> Value -> string.

(** What a method call leaves behind: the exception it raised, if any, the
    attribute of the instance, and standard output. *)
Definition Outcome3 (A : Type) : Type := option OutputError * A * Stdout.

(** [Json._line] is [None] while closed and counts the results while open. *)
Definition Json_enter (_line : option Z) (out : Stdout) : Outcome3 (option Z) :=
  match _line with
  | Some _ => (Some (ValueError "Already open"), _line, out)
  | None => (None, Some 0, print "{" out)
  end.

Definition Json_exit (_line : option Z) (out : Stdout) : Outcome3 (option Z) :=
  (None, None, print (NL ++ "}") out).

Definition Json_entry (title result : Value) : string :=
  (String TAB EmptyString ++ dumps title ++ ": " ++ dumps result)%string.

Definition Json_result (_line : option Z) (title result : Value) (out : Stdout)
  : Outcome3 (option Z) :=
  let out1 :=
    match _line with
    | Some 0 => out
    | _ => print "," out
    end in
  match _line with
  | None => (Some NoneTypeError, None, out1)
  | Some n => (None, Some (n + 1), print_no_end (Json_entry title result) out1)
  end.

(** [Csv._writer] is [None] while closed and the writer while open; the
    writer holds nothing the printer reads back, so it is a unit here. *)
Definition Csv_enter (_writer : option unit) (out : Stdout)
  : Outcome3 (option unit) :=
  match _writer with
  | Some _ => (Some (ValueError "Already open"), _writer, out)
  | None => (None, Some tt, out)
  end.

Definition Csv_exit (_writer : option unit) (out : Stdout)
  : Outcome3 (option unit) :=
  (None, None, out).

Definition Csv_result (_writer : option unit) (title result : Value)
           (out : Stdout) : Outcome3 (option unit) :=
  match _writer with
  | None => (Some NoneAttributeError, None, out)
  | Some w => (None, Some w, print_no_end (writerow title result) out)
  end.

(** A printer by its three methods. *)
Record Printer (A : Type) := mkPrinter {
  p_enter : A -> Stdout -> Outcome3 A;
  p_result : A -> Value -> Value -> Stdout -> Outcome3 A;
  p_exit : A -> Stdout -> Outcome3 A
}.

Arguments p_enter {A}.
Arguments p_result {A}.
Arguments p_exit {A}.

Definition Json : Printer (option Z) :=
  mkPrinter _ Json_enter Json_result Json_exit.

Definition Csv : Printer (option unit) :=
  mkPrinter _ Csv_enter Csv_result Csv_exit.

(** Calling [result] on every row of [data] in turn, up to the first
    exception. *)
Fixpoint results {A} (p : Printer A) (self : A) (data : list (Value * Value))
         (out : Stdout) : Outcome3 A :=
  match data with
  | [] => (None, self, out)
  | (title, result) :: rest =>
      match p_result p self title result out with
      | (None, self', out') => results p self' rest out'
      | failed => failed
      end
  end.

(** A [with] block around that loop.  An exception
    of [__enter__] leaves the block unentered; one raised in the body is
    raised again after [__exit__] has run. *)
Definition with_results {A} (p : Printer A) (self : A)
           (data : list (Value * Value)) (out : Stdout) : Outcome3 A :=
  match p_enter p self out with
  | (Some e, self1, out1) => (Some e, self1, out1)
  | (None, self1, out1) =>
      match results p self1 data out1 with
      | (body, self2, out2) =>
          match p_exit p self2 out2 with
          | (_, self3, out3) => (body, self3, out3)
          end
      end
  end.

(** The text of a block of results: the entries of a [Json] object, a comma
    and a newline between two of them, and the rows of a [Csv] table. *)
Definition json_separator : string := ("," ++ NL)%string.

Definition entry_of (row : Value * Value) : string :=
  Json_entry (fst row) (snd row).

Definition json_entries (data : list (Value * Value)) : string :=
  String.concat json_separator (map entry_of data).

(** The entries that follow another one, each after its separator. *)
Fixpoint json_more (data : list (Value * Value)) : string :=
  match data with
  | [] => EmptyString
  | row :: rest => (json_separator ++ entry_of row ++ json_more rest)%string
  end.

Fixpoint csv_rows (data : list (Value * Value)) : string :=
  match data with
  | [] => EmptyString
  | row :: rest => (writerow (fst row) (snd row) ++ csv_rows rest)%string
  end.

End Printers.

(** * Properties *)

(** ** Runs and scans *)

Section RunFacts.

Variable d : Dialect.
Variable diw : bool.

Lemma run_app st pre post ls st' :
  scan d diw st pre = Some (ls, st') ->
  run d diw st (pre ++ post)
  = (ls ++ fst (run d diw st' post), snd (run d diw st' post)).
Proof.
  revert st ls st'.
  induction pre as [|c pre IH]; intros st ls st' Hscan; simpl in *.
  - inversion Hscan; subst. simpl. now destruct (run d diw st' post).
  - destruct (step d diw st c) as [s1|l s1|e]; try discriminate.
    + now apply IH.
    + destruct (scan d diw s1 pre) as [[ls1 s2]|] eqn:E; try discriminate.
      inversion Hscan; subst.
      rewrite (IH _ _ _ E). reflexivity.
Qed.

Lemma run_scan st input ls st' :
  scan d diw st input = Some (ls, st') ->
  run d diw st input = (ls ++ fst (finish d diw st'), snd (finish d diw st')).
Proof.
  intros H. rewrite <- (app_nil_r input). now rewrite (run_app _ _ [] _ _ H).
Qed.

Lemma scan_app st pre post ls st' :
  scan d diw st pre = Some (ls, st') ->
  scan d diw st (pre ++ post)
  = match scan d diw st' post with
    | Some (ls', st'') => Some (ls ++ ls', st'')
    | None => None
    end.
Proof.
  revert st ls st'.
  induction pre as [|c pre IH]; intros st ls st' Hscan; simpl in *.
  - inversion Hscan; subst. simpl.
    now destruct (scan d diw st' post) as [[? ?]|].
  - destruct (step d diw st c) as [s1|l s1|e]; try discriminate.
    + now apply IH.
    + destruct (scan d diw s1 pre) as [[ls1 s2]|] eqn:E; try discriminate.
      inversion Hscan; subst.
      rewrite (IH _ _ _ E).
      now destruct (scan d diw st' post) as [[? ?]|].
Qed.

Lemma scan_app_none st pre post :
  scan d diw st pre = None -> scan d diw st (pre ++ post) = None.
Proof.
  revert st.
  induction pre as [|c pre IH]; intros st Hscan; simpl in *; try discriminate.
  destruct (step d diw st c) as [s1|l s1|e]; auto.
  destruct (scan d diw s1 pre) as [[ls1 s2]|] eqn:E; try discriminate.
  now rewrite (IH s1 E).
Qed.

(** A raised exception ends the run, whatever characters would follow. *)
Lemma run_raise st pre c post ls st' e :
  scan d diw st pre = Some (ls, st') ->
  step d diw st' c = Raise e ->
  run d diw st (pre ++ c :: post) = (ls, Raised e).
Proof.
  intros Hscan Hstep.
  rewrite (run_app _ _ _ _ _ Hscan). simpl. rewrite Hstep. simpl.
  now rewrite app_nil_r.
Qed.

End RunFacts.

(** Case analysis on one turn of the loop: every test the dispatch makes. *)
Ltac split_tests :=
  repeat match goal with
    | |- context [match _is_delimiter ?d ?c with _ => _ end] =>
        destruct (_is_delimiter d c) as [[|]|] eqn:?
    | |- context [if ?b then _ else _] => destruct b eqn:?
    end.

Ltac step_cases st :=
  unfold step, yielding, yield_line, next_field, set_field, set_mode, advance;
  destruct st as [[] ? ? ? ? ? ? ? ?]; simpl; split_tests; simpl.

(** ** Rows are never empty *)

Section NonEmptyRows.

Variable d : Dialect.
Variable diw : bool.

Lemma snoc_not_nil {A} (l : list A) (x : A) : l ++ [x] <> [].
Proof. destruct l; discriminate. Qed.

Lemma yield_line_items st :
  row_started st -> items (fst (yield_line d diw st)) <> [].
Proof.
  unfold row_started, yield_line, next_field.
  destruct st as [m f l ? ? ? ? ? ?]; simpl; intros H.
  destruct m; simpl; try apply snoc_not_nil.
  destruct diw; simpl; auto using snoc_not_nil.
Qed.

Lemma yield_line_state st : row_started (snd (yield_line d diw st)).
Proof. unfold row_started, yield_line. simpl. discriminate. Qed.

Lemma step_row_started st c :
  row_started st ->
  match step d diw st c with
  | Continue st' => row_started st'
  | Yield l st' => items l <> [] /\ row_started st'
  | Raise _ => True
  end.
Proof.
  unfold row_started. intros H.
  step_cases st; simpl in *;
    repeat split; try discriminate; auto using snoc_not_nil.
Qed.

Lemma run_rows_nonempty input : forall st,
  row_started st ->
  Forall (fun l => items l <> []) (fst (run d diw st input)).
Proof.
  induction input as [|c rest IH]; intros st H; simpl.
  - unfold finish.
    destruct (mode st) eqn:E; simpl; auto;
      constructor; auto; apply yield_line_items; auto.
  - pose proof (step_row_started st c H) as Hs.
    destruct (step d diw st c) as [s1|l s1|e]; simpl; auto.
    destruct Hs as [Hl Hs]. constructor; auto.
Qed.

End NonEmptyRows.

(** C10. Whatever the dialect and the input, every line the reader yields
    holds at least one field: a line is yielded either right after
    [next_field] appended to it, or from [MODE_OUTSIDE], which is only
    entered by [next_field]; so no empty row is ever emitted, also when the
    run ends in an exception.  A newline seen at the start of a line, a
    blank line that is, yields nothing. *)
Theorem rows_never_empty (d : Dialect) (input : list ascii) :
  Forall (fun l => items l <> []) (fst (Reader_iter d input))
  /\ (forall diw st nl,
         mode st = MODE_FIRST -> is_newline nl = true ->
         step d diw st nl = Continue (advance st nl)).
Proof.
  split.
  - unfold Reader_iter.
    destruct (compute_delimiter_is_whitespace d) as [diw|]; simpl; auto.
    apply run_rows_nonempty. unfold row_started, initial_state. simpl. discriminate.
  - intros diw st nl Hm Hn. unfold is_newline in Hn. unfold step.
    change (mode (advance st nl)) with (mode st).
    now rewrite Hm, Hn.
Qed.

(** With the attributes of the base class the containment test of the first
    turn fails before any character is read. *)
Lemma base_dialect_type_error (input : list ascii) :
  Reader_iter BaseDialect input = ([], Raised TypeError).
Proof. reflexivity. Qed.

(** ** Buffers at the start of a line *)

Section Tidy.

Variable d : Dialect.
Variable diw : bool.

Lemma step_tidy st c :
  tidy st ->
  match step d diw st c with
  | Continue st' | Yield _ st' => tidy st'
  | Raise _ => True
  end.
Proof.
  unfold tidy. intros H.
  step_cases st; simpl in *; intuition auto.
Qed.

Lemma scan_tidy input : forall st ls st',
  tidy st -> scan d diw st input = Some (ls, st') -> tidy st'.
Proof.
  induction input as [|c rest IH]; intros st ls st' H Hscan; simpl in *.
  - now inversion Hscan; subst.
  - pose proof (step_tidy st c H) as Hs.
    destruct (step d diw st c) as [s1|l s1|e]; try discriminate.
    + eauto.
    + destruct (scan d diw s1 rest) as [[ls1 s2]|] eqn:E; try discriminate.
      inversion Hscan; subst. eauto.
Qed.

Lemma initial_tidy : tidy initial_state.
Proof. unfold tidy. simpl. auto. Qed.

End Tidy.

(** ** End of stream *)

(** C6. When the stream ends with the reader in [MODE_INSIDE_QUOTED_QUOTE],
    [MODE_OUTSIDE] or [MODE_INSIDE], exactly one more line is yielded, the one
    [yield_line] makes of the pending state, and the run ends normally; when
    it ends in [MODE_FIRST] or [MODE_COMMENT], where nothing is pending,
    nothing more is yielded.  So "a,b" without a final newline yields the
    row a, b, and the empty input yields no row and no exception. *)
Theorem end_of_stream_flush :
  (forall d diw input ls st,
      compute_delimiter_is_whitespace d = Some diw ->
      scan d diw initial_state input = Some (ls, st) ->
      (mode st = MODE_INSIDE_QUOTED_QUOTE \/ mode st = MODE_OUTSIDE
       \/ mode st = MODE_INSIDE ->
       Reader_iter d input = (ls ++ [fst (yield_line d diw st)], Exhausted))
      /\ (mode st = MODE_FIRST \/ mode st = MODE_COMMENT ->
          field st = [] /\ line st = []
          /\ Reader_iter d input = (ls, Exhausted)))
  /\ Reader_iter DefaultDialect (chars "a,b")
     = ([mkLine ["a"; "b"] 1], Exhausted)
  /\ Reader_iter DefaultDialect [] = ([], Exhausted).
Proof.
  split; [|split; reflexivity].
  intros d diw input ls st Hdiw Hscan.
  unfold Reader_iter. rewrite Hdiw. rewrite (run_scan _ _ _ _ _ _ Hscan).
  pose proof (scan_tidy d diw input _ _ _ (initial_tidy) Hscan) as Ht.
  unfold tidy in Ht. unfold finish.
  split.
  - intros [H|[H|H]]; rewrite H; reflexivity.
  - intros [H|H]; rewrite H in *; simpl; rewrite app_nil_r; intuition auto.
Qed.

Lemma end_of_stream_flush_witness :
  compute_delimiter_is_whitespace DefaultDialect = Some false
  /\ Reader_iter DefaultDialect (chars "x,")
     = ([] ++ [mkLine ["x"; ""] 1], Exhausted).
Proof.
  split; [reflexivity|].
  apply (proj1 (proj1 end_of_stream_flush DefaultDialect false (chars "x,") []
                 (mkState MODE_OUTSIDE [] ["x"] 1 2 2 None None None)
                 eq_refl eq_refl)).
  right; left; reflexivity.
Defined.

(** ** Construction *)

(** C7, as the code has it.  Without a dialect, or with [None], [reader]
    uses the default dialect; an unknown name raises [UnknownDialectError], a
    known one is looked up; a class that does not derive from [Dialect]
    raises [InvalidDialectError]; a class that does is taken as it is; and in
    every case, also the failing ones, the stream is left as it was. *)
Theorem reader_construction (file : TextIO) :
  fst (reader file PyNone) = inr (mkReader 0 DefaultDialect file false)
  /\ (forall name,
        lookup_dialect name known_dialects = None ->
        fst (reader file (PyStr name)) = inl (UnknownDialectError name))
  /\ fst (reader file (PyStr "default")) = inr (mkReader 0 DefaultDialect file false)
  /\ fst (reader file (PyStr "whitespace"))
     = inr (mkReader 0 WhitespaceDialect file false)
  /\ (forall name,
        fst (reader file (PyClassObj (OtherClass name))) = inl InvalidDialectError)
  /\ (forall d,
        fst (reader file (PyClassObj (DialectSubclass d)))
        = inr (mkReader 0 d file false))
  /\ (forall v, snd (reader file v) = file).
Proof.
  repeat split; try reflexivity.
  - intros name H. unfold reader. now rewrite H.
  - intros v. unfold reader, Reader_init.
    destruct v as [|name|[dl|nm]|n]; try reflexivity.
    destruct (lookup_dialect name known_dialects); reflexivity.
Qed.

(** C7, the claim as it is stated, refuted: a value that is not a class at
    all, an integer say, does not get as far as [InvalidDialectError], since
    [issubclass] rejects it with a [TypeError]. *)
Lemma reader_non_class_value :
  ~ (forall (file : TextIO) (v : PyValue),
        v <> PyNone -> (forall s, v <> PyStr s) ->
        (forall d, v <> PyClassObj (DialectSubclass d)) ->
        fst (reader file v) = inl InvalidDialectError).
Proof.
  intros H. specialize (H [] (PyInt 5)).
  simpl in H. assert (E : @inl Exception Reader TypeError = inl InvalidDialectError).
  { apply H; intros; discriminate. }
  discriminate E.
Qed.

(** ** Line numbers *)

(** C1, evaluated.  On the two-line input the reader yields the two rows,
    stamped 2 and 3: the line counter is advanced on the newline character
    before the row that this newline ends is stamped. *)
Theorem lineno_two_lines :
  Reader_iter DefaultDialect (chars "a,b" ++ [LF] ++ chars "c,d" ++ [LF])
  = ([mkLine ["a"; "b"] 2; mkLine ["c"; "d"] 3], Exhausted).
Proof. reflexivity. Qed.

(** The same row, ended by the end of the stream instead of a newline, is
    stamped with the line it is on. *)
Lemma lineno_unterminated :
  Reader_iter DefaultDialect (chars "a,b") = ([mkLine ["a"; "b"] 1], Exhausted).
Proof. reflexivity. Qed.

(** ** The trailing-field drop *)

(** C3, evaluated.  The delimiter characters of [TabSpaceDialect] are all
    right-trim characters, but the delimiter string does not occur in the
    right-trim string, so the containment test fails and the trailing field
    is closed, not dropped; with the same characters in the other order the
    test succeeds and it is dropped. *)
Theorem trailing_field_tab_space :
  match delimiter TabSpaceDialect, trimright TabSpaceDialect with
  | Some dl, Some tr => str_subset dl tr = true
  | _, _ => False
  end
  /\ compute_delimiter_is_whitespace TabSpaceDialect = Some false
  /\ Reader_iter TabSpaceDialect (chars "a " ++ [LF])
     = ([mkLine ["a"; ""] 2], Exhausted)
  /\ compute_delimiter_is_whitespace WhitespaceDialect = Some true
  /\ Reader_iter WhitespaceDialect (chars "a " ++ [LF])
     = ([mkLine ["a"] 2], Exhausted)
  /\ Reader_iter WhitespaceDialect (chars "a   b" ++ [LF])
     = ([mkLine ["a"; "b"] 2], Exhausted).
Proof. repeat split; reflexivity. Qed.

(** ** Position tracking *)

Lemma line_at_snoc consumed c :
  line_at (consumed ++ [c])
  = if is_newline c then line_at consumed + 1 else line_at consumed.
Proof.
  unfold line_at. rewrite filter_app, length_app.
  cbn [filter]. destruct (is_newline c); cbn [length]; lia.
Qed.

Lemma column_at_snoc consumed c :
  column_at (consumed ++ [c])
  = if is_newline c then 0 else column_at consumed + 1.
Proof.
  unfold column_at. rewrite rev_app_distr.
  cbn [rev app since_newline].
  destruct (is_newline c); cbn [length]; lia.
Qed.

Lemma index_at_snoc consumed c :
  index_at (consumed ++ [c]) = index_at consumed + 1.
Proof. unfold index_at. rewrite length_app. cbn [length]. lia. Qed.

Section Tracking.

Variable d : Dialect.
Variable diw : bool.

Lemma scan_snoc pre c : forall st ls2 st2,
  scan d diw st (pre ++ [c]) = Some (ls2, st2) ->
  exists ls st',
    scan d diw st pre = Some (ls, st')
    /\ ((step d diw st' c = Continue st2 /\ ls2 = ls)
        \/ (exists l, step d diw st' c = Yield l st2 /\ ls2 = ls ++ [l])).
Proof.
  intros st ls2 st2 H.
  destruct (scan d diw st pre) as [[ls st']|] eqn:E.
  - rewrite (scan_app _ _ _ _ _ _ _ E) in H. simpl in H.
    exists ls, st'. split; auto.
    destruct (step d diw st' c) as [s1|l s1|e]; try discriminate.
    + inversion H; subst. left. now rewrite app_nil_r.
    + inversion H; subst. right. eauto.
  - now rewrite (scan_app_none _ _ _ _ _ E) in H.
Qed.

(** Whatever the mode, a turn of the loop that does not raise leaves the
    counters as [advance] set them. *)
Lemma step_counters st c st' :
  (step d diw st c = Continue st' \/ exists l, step d diw st c = Yield l st') ->
  cur_line st' = cur_line (advance st c)
  /\ cur_char st' = cur_char (advance st c)
  /\ idx st' = idx (advance st c).
Proof.
  revert st'. step_cases st; intros st' [H|[l H]]; inversion H; subst; simpl; auto.
Qed.

Lemma advance_position consumed st c :
  cur_line st = line_at consumed ->
  cur_char st = column_at consumed ->
  idx st = index_at consumed ->
  cur_line (advance st c) = line_at (consumed ++ [c])
  /\ cur_char (advance st c) = column_at (consumed ++ [c])
  /\ idx (advance st c) = index_at (consumed ++ [c]).
Proof.
  intros Hl Hc Hi.
  rewrite line_at_snoc, column_at_snoc, index_at_snoc.
  unfold advance, is_newline. cbn [cur_line cur_char idx].
  destruct (char_in c newlinechars); repeat split; lia.
Qed.

(** The counters of the scan state are the position of the last character
    consumed. *)
Lemma scan_position consumed : forall ls st,
  scan d diw initial_state consumed = Some (ls, st) ->
  cur_line st = line_at consumed
  /\ cur_char st = column_at consumed
  /\ idx st = index_at consumed.
Proof.
  induction consumed as [|c consumed IH] using rev_ind; intros ls st H.
  - simpl in H. inversion H; subst. now compute.
  - destruct (scan_snoc _ _ _ _ _ H) as (ls0 & st0 & Hpre & Hstep).
    destruct (IH _ _ Hpre) as (Hl & Hc & Hi).
    destruct (advance_position consumed st0 c Hl Hc Hi) as (Al & Ac & Ai).
    assert (Hs : step d diw st0 c = Continue st
                 \/ exists l, step d diw st0 c = Yield l st).
    { destruct Hstep as [[H1 _]|[l [H1 _]]]; eauto. }
    destruct (step_counters _ _ _ Hs) as (Cl & Cc & Ci).
    repeat split; congruence.
Qed.

(** Where an exception of a run comes from: a turn of the loop, or the end
    of the stream inside a quoted field. *)
Lemma run_raised input : forall st ls e,
  run d diw st input = (ls, Raised e) ->
  (exists pre c post st',
      input = pre ++ c :: post
      /\ scan d diw st pre = Some (ls, st')
      /\ step d diw st' c = Raise e)
  \/ (exists st',
         scan d diw st input = Some (ls, st')
         /\ mode st' = MODE_INSIDE_QUOTED
         /\ e = UnclosedQuoteError "Unexpected end" (last_quote_line st')
                                   (last_quote_char st') (last_quote_idx st')).
Proof.
  induction input as [|c rest IH]; intros st ls e H; simpl in H.
  - right. exists st. unfold finish in H.
    destruct (mode st) eqn:E; inversion H; subst; auto.
  - destruct (step d diw st c) as [s1|l s1|e1] eqn:Es.
    + destruct (IH _ _ _ H) as [(pre & c' & post & st' & E1 & E2 & E3)|(st' & E1 & E2 & E3)].
      * left. exists (c :: pre), c', post, st'. subst. simpl. rewrite Es. auto.
      * right. exists st'. simpl. rewrite Es. auto.
    + destruct (run d diw s1 rest) as [ls1 o1] eqn:Er.
      unfold emit in H. simpl in H. inversion H; subst.
      destruct (IH _ _ _ Er) as [(pre & c' & post & st' & E1 & E2 & E3)|(st' & E1 & E2 & E3)].
      * left. exists (c :: pre), c', post, st'. subst. simpl. rewrite Es, E2. auto.
      * right. exists st'. simpl. rewrite Es, E1. auto.
    + inversion H; subst. left. exists [], c, rest, st. simpl. auto.
Qed.

End Tracking.

(** ** Quotes where they are not allowed *)

Section UnallowedQuote.

Variable d : Dialect.
Variable diw : bool.

Lemma step_unallowed st c msg l ch i :
  step d diw st c = Raise (UnallowedQuoteError msg l ch i)
  <-> (l = cur_line (advance st c)
       /\ ch = cur_char (advance st c)
       /\ i = idx (advance st c)
       /\ ((quote_in_unquoted_field d st c /\ msg = "Quote not allowed here")
           \/ (closing_quote_not_doubled d st c
               /\ msg = "Single quote inside quoted field"))).
Proof.
  unfold quote_in_unquoted_field, closing_quote_not_doubled, is_newline.
  step_cases st;
    (split;
     [ intros H; inversion H; subst; intuition congruence
     | intros (-> & -> & -> & [[[? ?] ->]|[(? & ? & ? & ?) ->]]);
       try discriminate; try congruence; reflexivity ]).
Qed.

End UnallowedQuote.

(** C5, as the code has it.  A run ends in [UnallowedQuoteError] exactly
    when, at some character
    of the input, either the reader is inside an unquoted field and the
    character is the quote character, or the reader has just seen a quote
    inside a quoted field and the character is neither a second quote, nor a
    delimiter, nor a newline (so that quote was not doubled and closed
    nothing).  The exception carries the line, column and index of that
    character; the rows are those yielded before it, whatever follows it in
    the stream.  On a, quote, b, comma, c, newline it is raised at the quote:
    line 1, column 2, index 2. *)
Theorem unallowed_quote_exactly :
  (forall d diw input ls msg l ch i,
      compute_delimiter_is_whitespace d = Some diw ->
      (Reader_iter d input = (ls, Raised (UnallowedQuoteError msg l ch i))
       <-> exists pre c post st,
            input = pre ++ c :: post
            /\ scan d diw initial_state pre = Some (ls, st)
            /\ l = line_at (pre ++ [c])
            /\ ch = column_at (pre ++ [c])
            /\ i = index_at (pre ++ [c])
            /\ ((quote_in_unquoted_field d st c
                 /\ msg = "Quote not allowed here")
                \/ (closing_quote_not_doubled d st c
                    /\ msg = "Single quote inside quoted field"))))
  /\ Reader_iter DefaultDialect (chars "a" ++ [DQUOTE] ++ chars "b,c" ++ [LF])
     = ([], Raised (UnallowedQuoteError "Quote not allowed here" 1 2 2)).
Proof.
  split; [|reflexivity].
  intros d diw input ls msg l ch i Hdiw.
  unfold Reader_iter. rewrite Hdiw. split.
  - intros H. apply run_raised in H.
    destruct H as [(pre & c & post & st & E1 & E2 & E3)|(st & _ & _ & E)];
      [|discriminate].
    exists pre, c, post, st.
    apply step_unallowed in E3. destruct E3 as (-> & -> & -> & Hc).
    destruct (scan_position _ _ _ _ _ E2) as (Hl & Hc' & Hi).
    destruct (advance_position pre st c Hl Hc' Hi) as (Al & Ac & Ai).
    repeat split; auto.
  - intros (pre & c & post & st & -> & Hscan & Hl & Hc & Hi & Hcase).
    apply (run_raise _ _ _ _ _ _ _ _ _ Hscan).
    apply step_unallowed.
    destruct (scan_position _ _ _ _ _ Hscan) as (Sl & Sc & Si).
    destruct (advance_position pre st c Sl Sc Si) as (Al & Ac & Ai).
    repeat split; congruence.
Qed.

Lemma unallowed_quote_exactly_witness :
  compute_delimiter_is_whitespace DefaultDialect = Some false
  /\ Reader_iter DefaultDialect (DQUOTE :: chars "ab" ++ DQUOTE :: chars "c,d")
     = ([], Raised (UnallowedQuoteError "Single quote inside quoted field" 1 5 5)).
Proof.
  split; [reflexivity|].
  apply (proj2 (proj1 unallowed_quote_exactly DefaultDialect false _ _ _ _ _ _ eq_refl)).
  exists (DQUOTE :: chars "ab" ++ [DQUOTE]), "c"%char, (chars ",d"),
    (mkState MODE_INSIDE_QUOTED_QUOTE (chars "ab") [] 1 4 4 (Some 1) (Some 1) (Some 1)).
  repeat split. right. repeat split.
Defined.

(** C5, the claim as it is stated, refuted: the character the exception
    points at need not be a quote.  After the closing quote of a quoted
    field, in quote, a, quote, space, comma, b, the exception is raised at
    the space, index 4, and carries its position; the quote before it is at
    index 3. *)
Lemma unallowed_quote_after_closing_quote :
  ~ (forall (d : Dialect) (input : list ascii) ls msg l ch i,
        Reader_iter d input = (ls, Raised (UnallowedQuoteError msg l ch i)) ->
        exists q,
          nth_error input (Z.to_nat (i - 1)) = Some q /\ _is_quote d q = true).
Proof.
  intros H.
  destruct (H DefaultDialect (DQUOTE :: chars "a" ++ DQUOTE :: chars " ,b")
              [] "Single quote inside quoted field" 1 4 4 eq_refl)
    as (q & Hq & Hquote).
  vm_compute in Hq. inversion Hq; subst q. discriminate Hquote.
Qed.

(** ** A quoted field left open *)

Section UnclosedQuote.

Variable d : Dialect.
Variable diw : bool.

(** A quoted mode is entered by a quote seen at the start of a line or
    between fields, which records its position; it is otherwise only
    reached from a quoted mode, which keeps the record. *)
Lemma step_into_quoted st c st' :
  (step d diw st c = Continue st' \/ exists l, step d diw st c = Yield l st') ->
  quoted_mode (Some (mode st')) = true ->
  (quoted_mode (Some (mode st)) = true
   /\ last_quote_line st' = last_quote_line st
   /\ last_quote_char st' = last_quote_char st
   /\ last_quote_idx st' = last_quote_idx st)
  \/ (unquoted_start_mode (Some (mode st)) = true
      /\ _is_quote d c = true
      /\ is_newline c = false
      /\ last_quote_line st' = Some (cur_line (advance st c))
      /\ last_quote_char st' = Some (cur_char (advance st c))
      /\ last_quote_idx st' = Some (idx (advance st c))).
Proof.
  unfold is_newline. revert st'.
  step_cases st; intros st' [H|[l H]]; inversion H; subst; simpl;
    intros Hq; try discriminate; auto 10.
Qed.

Lemma mode_after_scan consumed ls st :
  scan d diw initial_state consumed = Some (ls, st) ->
  mode_after d diw consumed = Some (mode st).
Proof. unfold mode_after. now intros ->. Qed.

Lemma quoted_invariant consumed : forall ls st,
  scan d diw initial_state consumed = Some (ls, st) ->
  quoted_mode (Some (mode st)) = true ->
  exists pre q post,
    consumed = pre ++ q :: post
    /\ opening_quote d diw pre q post
    /\ last_quote_line st = Some (line_at (pre ++ [q]))
    /\ last_quote_char st = Some (column_at (pre ++ [q]))
    /\ last_quote_idx st = Some (index_at (pre ++ [q])).
Proof.
  induction consumed as [|c consumed IH] using rev_ind; intros ls st H Hq.
  - simpl in H. inversion H; subst. discriminate.
  - destruct (scan_snoc _ _ _ _ _ _ _ H) as (ls0 & st0 & Hpre & Hstep).
    assert (Hs : step d diw st0 c = Continue st
                 \/ exists l, step d diw st0 c = Yield l st).
    { destruct Hstep as [[H1 _]|[l [H1 _]]]; eauto. }
    destruct (step_into_quoted _ _ _ Hs Hq)
      as [(Hq0 & El & Ec & Ei)|(Hu & Hquote & Hnl & El & Ec & Ei)].
    + destruct (IH _ _ Hpre Hq0)
        as (pre & q & post & -> & (Q1 & Q2 & Q3 & Q4) & Pl & Pc & Pi).
      exists pre, q, (post ++ [c]).
      split; [now rewrite <- app_assoc|].
      split; [|repeat split; congruence].
      repeat split; auto.
      intros k. destruct (Nat.le_gt_cases k (length post)) as [Hk|Hk].
      * rewrite firstn_app.
        replace (k - length post)%nat with 0%nat by lia.
        simpl. rewrite app_nil_r. apply Q4.
      * rewrite firstn_all2 by (rewrite length_app; simpl; lia).
        replace (pre ++ q :: post ++ [c]) with ((pre ++ q :: post) ++ [c])
          by now rewrite <- app_assoc.
        now rewrite (mode_after_scan _ _ _ H).
    + destruct (scan_position _ _ _ _ _ Hpre) as (Sl & Sc & Si).
      destruct (advance_position consumed st0 c Sl Sc Si) as (Al & Ac & Ai).
      exists consumed, c, [].
      split; [reflexivity|].
      split; [|repeat split; congruence].
      repeat split; auto.
      * now rewrite (mode_after_scan _ _ _ Hpre).
      * intros k. rewrite firstn_nil. now rewrite (mode_after_scan _ _ _ H).
Qed.

End UnclosedQuote.

(** C4. When the stream ends with the reader in [MODE_INSIDE_QUOTED], the
    run ends in [UnclosedQuoteError], after the rows yielded so far, and the
    line, column and index it carries are those of the quote character that
    opened the field the reader never left, not those of the end of the
    stream.  On a, comma, quote, b, newline, whose end is at index 5, it
    carries line 1, column 3, index 3. *)
Theorem unclosed_quote_position :
  (forall d diw input ls st,
      compute_delimiter_is_whitespace d = Some diw ->
      scan d diw initial_state input = Some (ls, st) ->
      mode st = MODE_INSIDE_QUOTED ->
      exists pre q post,
        input = pre ++ q :: post
        /\ opening_quote d diw pre q post
        /\ Reader_iter d input
           = (ls, Raised (UnclosedQuoteError "Unexpected end"
                            (Some (line_at (pre ++ [q])))
                            (Some (column_at (pre ++ [q])))
                            (Some (index_at (pre ++ [q]))))))
  /\ Reader_iter DefaultDialect (chars "a," ++ [DQUOTE] ++ chars "b" ++ [LF])
     = ([], Raised (UnclosedQuoteError "Unexpected end" (Some 1) (Some 3) (Some 3)))
  /\ index_at (chars "a," ++ [DQUOTE] ++ chars "b" ++ [LF]) = 5.
Proof.
  split; [|split; reflexivity].
  intros d diw input ls st Hdiw Hscan Hmode.
  assert (Hq : quoted_mode (Some (mode st)) = true) by now rewrite Hmode.
  destruct (quoted_invariant d diw input ls st Hscan Hq)
    as (pre & q & post & E & Hopen & Pl & Pc & Pi).
  exists pre, q, post. repeat split; auto; try apply Hopen.
  unfold Reader_iter. rewrite Hdiw, (run_scan _ _ _ _ _ _ Hscan).
  unfold finish. rewrite Hmode, Pl, Pc, Pi. simpl. now rewrite app_nil_r.
Qed.

Lemma unclosed_quote_position_witness :
  exists pre q post,
    DQUOTE :: chars "x" ++ [LF] = pre ++ q :: post
    /\ opening_quote DefaultDialect false pre q post
    /\ Reader_iter DefaultDialect (DQUOTE :: chars "x" ++ [LF])
       = ([], Raised (UnclosedQuoteError "Unexpected end"
                        (Some (line_at (pre ++ [q])))
                        (Some (column_at (pre ++ [q])))
                        (Some (index_at (pre ++ [q]))))).
Proof.
  apply (proj1 unclosed_quote_position DefaultDialect false
               (DQUOTE :: chars "x" ++ [LF]) []
               (mkState MODE_INSIDE_QUOTED (chars "x" ++ [LF]) [] 2 0 3
                        (Some 1) (Some 1) (Some 1))
               eq_refl eq_refl eq_refl).
Defined.

(** ** Comment lines *)

Section Comments.

Variable d : Dialect.
Variable diw : bool.

Lemma step_first_comment st c :
  mode st = MODE_FIRST ->
  is_newline c = false ->
  _is_ignore_left d c = false ->
  _is_comment d c = true ->
  step d diw st c = Continue (set_mode MODE_COMMENT (advance st c)).
Proof.
  unfold is_newline, step. intros Hm Hn Hi Hc.
  change (mode (advance st c)) with (mode st).
  now rewrite Hm, Hn, Hi, Hc.
Qed.

Lemma step_first_newline st nl :
  mode st = MODE_FIRST ->
  is_newline nl = true ->
  step d diw st nl = Continue (advance st nl).
Proof.
  unfold is_newline, step. intros Hm Hn.
  change (mode (advance st nl)) with (mode st).
  now rewrite Hm, Hn.
Qed.

Lemma step_comment st c :
  mode st = MODE_COMMENT ->
  step d diw st c
  = Continue (if is_newline c then set_mode MODE_FIRST (advance st c)
              else advance st c).
Proof.
  unfold is_newline, step. intros Hm.
  change (mode (advance st c)) with (mode st).
  now rewrite Hm.
Qed.

Lemma advance_line st c :
  cur_line (advance st c)
  = if is_newline c then cur_line st + 1 else cur_line st.
Proof. reflexivity. Qed.

(** Inside a comment every character but a newline is dropped. *)
Lemma scan_comment_body body : forall st,
  mode st = MODE_COMMENT ->
  no_newline body = true ->
  exists st',
    scan d diw st body = Some ([], st')
    /\ mode st' = MODE_COMMENT
    /\ field st' = field st
    /\ line st' = line st
    /\ cur_line st' = cur_line st.
Proof.
  unfold no_newline.
  induction body as [|x body IH]; intros st Hm Hb; cbn [scan forallb] in *.
  - exists st. auto.
  - apply andb_prop in Hb. destruct Hb as [Hx Hb].
    apply negb_true_iff in Hx.
    rewrite (step_comment st x Hm), Hx.
    destruct (IH (advance st x)) as (st' & E & M & F & L & C); auto.
    exists st'. rewrite advance_line, Hx in C. auto.
Qed.

Lemma scan_comment_line st c body nl :
  mode st = MODE_FIRST ->
  _is_comment d c = true ->
  is_newline c = false ->
  _is_ignore_left d c = false ->
  no_newline body = true ->
  is_newline nl = true ->
  exists st',
    scan d diw st (c :: body ++ [nl]) = Some ([], st')
    /\ mode st' = MODE_FIRST
    /\ field st' = field st
    /\ line st' = line st
    /\ cur_line st' = cur_line st + 1.
Proof.
  intros Hm Hc Hn Hi Hb Hnl.
  cbn [scan]. rewrite (step_first_comment st c Hm Hn Hi Hc).
  destruct (scan_comment_body body (set_mode MODE_COMMENT (advance st c)))
    as (s1 & E & M & F & L & C); auto.
  rewrite (scan_app _ _ _ _ _ _ _ E). cbn [scan].
  rewrite (step_comment s1 nl M), Hnl.
  eexists. split; [reflexivity|].
  cbn [set_mode mode field line cur_line].
  change (field (advance s1 nl)) with (field s1).
  change (line (advance s1 nl)) with (line s1).
  rewrite advance_line, Hnl, F, L, C.
  cbn [set_mode mode field line cur_line].
  change (field (advance st c)) with (field st).
  change (line (advance st c)) with (line st).
  rewrite advance_line, Hn. auto.
Qed.

Lemma step_same_rows a b c :
  same_rows a b ->
  match step d diw a c, step d diw b c with
  | Continue a', Continue b' => same_rows a' b'
  | Yield l a', Yield l' b' => l = l' /\ same_rows a' b'
  | Raise _, Raise _ => True
  | _, _ => False
  end.
Proof.
  unfold same_rows.
  destruct a as [m f l cl ? ? ? ? ?], b as [m' f' l' cl' ? ? ? ? ?]; simpl.
  intros (<- & <- & <- & <-).
  unfold step, yielding, yield_line, next_field, set_field, set_mode, advance.
  destruct m; simpl; split_tests; simpl; auto.
Qed.

Lemma run_same_rows input : forall a b,
  same_rows a b -> fst (run d diw a input) = fst (run d diw b input).
Proof.
  induction input as [|c rest IH]; intros a b H; simpl.
  - destruct a as [m f l cl ? ? ? ? ?], b as [m' f' l' cl' ? ? ? ? ?].
    destruct H as (Hm & Hf & Hl & Hc). simpl in *. subst.
    unfold finish, yield_line, next_field.
    destruct m'; simpl; auto; destruct diw; reflexivity.
  - pose proof (step_same_rows a b c H) as Hs.
    destruct (step d diw a c), (step d diw b c); try contradiction; simpl; auto.
    destruct Hs as [-> Hs]. f_equal. auto.
Qed.

End Comments.

(** C9. Where a line starts (the reader is in [MODE_FIRST]) with the comment
    character, that character and all that follows it up to and including
    the newline are consumed without a field or a row being produced: the
    rows yielded are those yielded before, the buffers are empty, the reader
    is back at the start of a line, and the line counter has advanced by the
    one line.  The rows of the whole run, line numbers included, are those of
    the same input with the comment line emptied. *)
Theorem comment_line_discarded d diw pre ls st c body nl rest :
  compute_delimiter_is_whitespace d = Some diw ->
  scan d diw initial_state pre = Some (ls, st) ->
  mode st = MODE_FIRST ->
  _is_comment d c = true ->
  is_newline c = false ->
  _is_ignore_left d c = false ->
  no_newline body = true ->
  is_newline nl = true ->
  (exists st',
      scan d diw initial_state (pre ++ c :: body ++ [nl]) = Some (ls, st')
      /\ mode st' = MODE_FIRST /\ field st' = [] /\ line st' = []
      /\ cur_line st' = line_at pre + 1)
  /\ fst (Reader_iter d (pre ++ c :: body ++ nl :: rest))
     = fst (Reader_iter d (pre ++ nl :: rest)).
Proof.
  intros Hdiw Hscan Hm Hc Hn Hi Hb Hnl.
  destruct (scan_comment_line d diw st c body nl Hm Hc Hn Hi Hb Hnl)
    as (st' & E & M & F & L & C).
  pose proof (scan_tidy d diw pre _ _ _ (initial_tidy) Hscan) as Ht.
  unfold tidy in Ht. rewrite Hm in Ht. destruct Ht as [Hf Hl].
  destruct (scan_position _ _ _ _ _ Hscan) as (Pl & _ & _).
  split.
  - exists st'. rewrite (scan_app _ _ _ _ _ _ _ Hscan), E, app_nil_r.
    repeat split; congruence.
  - unfold Reader_iter. rewrite Hdiw.
    replace (c :: body ++ nl :: rest) with ((c :: body ++ [nl]) ++ rest)
      by (simpl; now rewrite <- app_assoc).
    rewrite (run_app _ _ _ _ _ _ _ Hscan), (run_app _ _ _ _ _ _ _ Hscan).
    cbn [fst]. f_equal.
    rewrite (run_app _ _ _ _ _ _ _ E). cbn [fst app].
    cbn [run]. rewrite (step_first_newline d diw st nl Hm Hnl).
    apply run_same_rows. unfold same_rows.
    change (mode (advance st nl)) with (mode st).
    change (field (advance st nl)) with (field st).
    change (line (advance st nl)) with (line st).
    rewrite advance_line, Hnl. repeat split; congruence.
Qed.

Lemma comment_line_discarded_witness :
  (exists st',
      scan DefaultDialect false initial_state
           ((chars "a" ++ [LF]) ++ "#"%char :: chars " b,c" ++ [LF])
      = Some ([mkLine ["a"] 2], st')
      /\ mode st' = MODE_FIRST /\ field st' = [] /\ line st' = []
      /\ cur_line st' = line_at (chars "a" ++ [LF]) + 1)
  /\ fst (Reader_iter DefaultDialect
            ((chars "a" ++ [LF]) ++ "#"%char :: chars " b,c" ++ LF :: chars "d"))
     = fst (Reader_iter DefaultDialect ((chars "a" ++ [LF]) ++ LF :: chars "d")).
Proof.
  apply (comment_line_discarded DefaultDialect false (chars "a" ++ [LF])
           [mkLine ["a"] 2] (mkState MODE_FIRST [] [] 2 0 2 None None None)
           "#"%char (chars " b,c") LF (chars "d"));
    reflexivity.
Defined.

(** ** Quoted fields *)

Section QuotedField.

Variable d : Dialect.
Variable diw : bool.
Variable q : ascii.
Hypothesis Hq : quotes_with d q = true.

Lemma quotes_with_inv :
  quotechar d = Some (String q EmptyString)
  /\ is_newline q = false
  /\ _is_ignore_left d q = false
  /\ _is_comment d q = false.
Proof.
  unfold quotes_with in Hq.
  repeat (apply andb_prop in Hq; destruct Hq as [Hq ?]).
  repeat match goal with H : negb _ = true |- _ => apply negb_true_iff in H end.
  destruct (quotechar d) as [qs|]; try discriminate.
  apply String.eqb_eq in Hq. subst. auto.
Qed.

Lemma is_quote_eqb c : _is_quote d c = Ascii.eqb c q.
Proof.
  unfold _is_quote. destruct quotes_with_inv as (-> & _).
  simpl. now destruct (Ascii.eqb c q).
Qed.

Lemma step_open_quote st :
  unquoted_start_mode (Some (mode st)) = true ->
  exists st',
    step d diw st q = Continue st'
    /\ mode st' = MODE_INSIDE_QUOTED
    /\ field st' = field st /\ line st' = line st.
Proof.
  destruct quotes_with_inv as (_ & Hn & Hi & Hc).
  unfold is_newline in Hn. intros Hm.
  unfold step. change (mode (advance st q)) with (mode st).
  rewrite Hn, Hi, Hc, is_quote_eqb, Ascii.eqb_refl.
  destruct (mode st); try discriminate; simpl; eauto.
Qed.

Lemma step_quoted_char st c :
  mode st = MODE_INSIDE_QUOTED ->
  Ascii.eqb c q = false ->
  step d diw st c = Continue (set_field (field st ++ [c]) (advance st c)).
Proof.
  intros Hm Hc. unfold step. change (mode (advance st c)) with (mode st).
  now rewrite Hm, is_quote_eqb, Hc.
Qed.

Lemma step_quoted_quote st :
  mode st = MODE_INSIDE_QUOTED ->
  step d diw st q = Continue (set_mode MODE_INSIDE_QUOTED_QUOTE (advance st q)).
Proof.
  intros Hm. unfold step. change (mode (advance st q)) with (mode st).
  now rewrite Hm, is_quote_eqb, Ascii.eqb_refl.
Qed.

Lemma step_doubled_quote st :
  mode st = MODE_INSIDE_QUOTED_QUOTE ->
  step d diw st q
  = Continue (set_mode MODE_INSIDE_QUOTED
                       (set_field (field st ++ [q]) (advance st q))).
Proof.
  intros Hm. unfold step. change (mode (advance st q)) with (mode st).
  now rewrite Hm, is_quote_eqb, Ascii.eqb_refl.
Qed.

(** Inside the quotes every character of the field is collected as it is,
    a doubled quote as one quote. *)
Lemma scan_quoted_body s : forall st,
  mode st = MODE_INSIDE_QUOTED ->
  exists st',
    scan d diw st (double_quotes q s) = Some ([], st')
    /\ mode st' = MODE_INSIDE_QUOTED
    /\ field st' = field st ++ s
    /\ line st' = line st.
Proof.
  induction s as [|c s IH]; intros st Hm.
  - exists st. simpl. rewrite app_nil_r. auto.
  - unfold double_quotes. cbn [flat_map].
    fold (double_quotes q s).
    destruct (Ascii.eqb c q) eqn:Ec.
    + apply Ascii.eqb_eq in Ec. subst c.
      cbn [app scan]. rewrite (step_quoted_quote st Hm).
      rewrite step_doubled_quote by reflexivity.
      destruct (IH (set_mode MODE_INSIDE_QUOTED
                      (set_field (field (set_mode MODE_INSIDE_QUOTED_QUOTE (advance st q)) ++ [q])
                         (advance (set_mode MODE_INSIDE_QUOTED_QUOTE (advance st q)) q))))
        as (st' & E & M & F & L); [reflexivity|].
      exists st'. rewrite E. repeat split; auto.
      rewrite F. simpl. now rewrite <- app_assoc.
    + cbn [app scan]. rewrite (step_quoted_char st c Hm Ec).
      destruct (IH (set_field (field st ++ [c]) (advance st c)))
        as (st' & E & M & F & L); [exact Hm|].
      exists st'. rewrite E. repeat split; auto.
      rewrite F. simpl. now rewrite <- app_assoc.
Qed.

Lemma line_at_double_quotes s :
  filter is_newline (double_quotes q s) = filter is_newline s.
Proof.
  destruct quotes_with_inv as (_ & Hn & _).
  induction s as [|c s IH]; [reflexivity|].
  unfold double_quotes in *. cbn [flat_map].
  destruct (Ascii.eqb c q) eqn:Ec.
  - apply Ascii.eqb_eq in Ec. subst c. cbn [app filter]. now rewrite Hn.
  - cbn [app filter]. now rewrite IH.
Qed.

Lemma line_at_quote_field s : line_at (quote_field q s) = line_at s.
Proof.
  destruct quotes_with_inv as (_ & Hn & _).
  unfold line_at, quote_field. cbn [filter]. rewrite Hn.
  rewrite filter_app, line_at_double_quotes. cbn [filter]. rewrite Hn.
  now rewrite app_nil_r.
Qed.

Lemma scan_quote_field s :
  exists st',
    scan d diw initial_state (quote_field q s) = Some ([], st')
    /\ mode st' = MODE_INSIDE_QUOTED_QUOTE
    /\ field st' = s
    /\ line st' = [].
Proof.
  unfold quote_field. cbn [scan].
  destruct (step_open_quote initial_state eq_refl) as (s1 & E1 & M1 & F1 & L1).
  rewrite E1.
  destruct (scan_quoted_body s s1 M1) as (s2 & E2 & M2 & F2 & L2).
  rewrite (scan_app _ _ _ _ _ _ _ E2). cbn [scan].
  rewrite (step_quoted_quote s2 M2).
  eexists. split; [reflexivity|].
  cbn [set_mode mode field line].
  change (field (advance s2 q)) with (field s2).
  change (line (advance s2 q)) with (line s2).
  rewrite F2, L2, F1, L1. auto.
Qed.

End QuotedField.

(** C8. In a dialect whose quote character opens a quoted field at the start
    of a line (it is not also a newline, a left-trim or the comment
    character, as in both dialects provided), every string, delimiters,
    quotes and newlines included, wrapped in quotes with its own quotes
    doubled, is read back as one row of one field, which is that string
    character for character, nothing trimmed. *)
Theorem quoted_field_round_trip d diw q (s : string) :
  compute_delimiter_is_whitespace d = Some diw ->
  quotes_with d q = true ->
  Reader_iter d (quote_field q (chars s))
  = ([mkLine [s] (line_at (chars s))], Exhausted).
Proof.
  intros Hdiw Hq.
  destruct (scan_quote_field d diw q Hq (chars s)) as (st & E & M & F & L).
  destruct (scan_position _ _ _ _ _ E) as (Pl & _ & _).
  unfold Reader_iter. rewrite Hdiw, (run_scan _ _ _ _ _ _ E).
  unfold finish, yield_line, next_field. rewrite M. cbn.
  rewrite L, F, Pl, (line_at_quote_field d q Hq).
  unfold join, chars. now rewrite string_of_list_ascii_of_string.
Qed.

Lemma quoted_field_round_trip_witness :
  Reader_iter DefaultDialect
              (quote_field DQUOTE
                 (chars (String " " (String "a" (String "," (String DQUOTE
                           (String LF (String "b" (String " " EmptyString)))))))))
  = ([mkLine [String " " (String "a" (String "," (String DQUOTE
                (String LF (String "b" (String " " EmptyString))))))] 2],
     Exhausted).
Proof.
  apply (quoted_field_round_trip DefaultDialect false DQUOTE
           (String " " (String "a" (String "," (String DQUOTE
              (String LF (String "b" (String " " EmptyString)))))))
           eq_refl eq_refl).
Defined.

(** ** The reader against split-and-trim *)

Lemma split_on_cons delims ln :
  exists piece pieces, split_on delims ln = piece :: pieces.
Proof.
  destruct ln as [|c ln]; simpl; eauto.
  destruct (char_in c delims); eauto.
  destruct (split_on delims ln); eauto.
Qed.

Lemma str_disjoint_spec a b c :
  str_disjoint a b = true -> char_in c a = true -> char_in c b = false.
Proof.
  induction a as [|x a IH]; simpl; intros H Hc; try discriminate.
  apply andb_prop in H. destruct H as [Hx Ha].
  apply orb_prop in Hc. destruct Hc as [Hc|Hc]; auto.
  apply Ascii.eqb_eq in Hc. subst. now apply negb_true_iff in Hx.
Qed.

Lemma flushed_advance d diw st c :
  flushed d diw (advance st c) = flushed d diw st.
Proof.
  unfold flushed, yield_line.
  change (mode (advance st c)) with (mode st).
  now destruct (negb (mode_eqb (mode st) MODE_OUTSIDE && diw)).
Qed.

(** An input is its first line alone, or its first line, a newline
    character and the rest. *)
Lemma input_lines_split input :
  exists ln,
    no_newline ln = true
    /\ ((input = ln /\ input_lines input = [ln])
        \/ (exists nl more,
               is_newline nl = true
               /\ input = ln ++ nl :: more
               /\ input_lines input = ln :: input_lines more)).
Proof.
  unfold input_lines, no_newline, is_newline.
  induction input as [|c input IH].
  - exists []. split; auto.
  - cbn [split_on]. destruct (char_in c newlinechars) eqn:Ec.
    + exists []. split; auto. right. exists c, input. auto.
    + destruct IH as (ln & Hn & [[E1 E2]|(nl & more & Hnl & E1 & E2)]);
        exists (c :: ln); cbn [forallb]; rewrite Ec, Hn; (split; [reflexivity|]).
      * left. rewrite E2. now subst.
      * right. exists nl, more. rewrite E2. subst. auto.
Qed.

Section Refinement.

Variable d : Dialect.
Variables D R : string.
Hypothesis HD : delimiter d = Some D.
Hypothesis HR : trimright d = Some R.
Hypothesis Hdis : delimiter_not_left_trimmed d = true.

Lemma trimright_join f : _trimright d (join f) = join (trim_right d f).
Proof.
  unfold _trimright, trim_right, rstrip, join. rewrite HR.
  now rewrite list_ascii_of_string_of_list_ascii.
Qed.

Lemma trim_piece_nil : trim_piece d [] = join (trim_right d []).
Proof. unfold trim_piece, trim_left. now destruct (trimleft d). Qed.

Lemma trim_piece_skip c piece :
  _is_ignore_left d c = true -> trim_piece d (c :: piece) = trim_piece d piece.
Proof.
  unfold trim_piece, trim_left, _is_ignore_left.
  destruct (trimleft d); try discriminate. simpl. now intros ->.
Qed.

Lemma trim_piece_keep c piece :
  _is_ignore_left d c = false ->
  trim_piece d (c :: piece) = join (trim_right d (c :: piece)).
Proof.
  unfold trim_piece, trim_left, _is_ignore_left.
  destruct (trimleft d); auto. simpl. now intros ->.
Qed.

Lemma delimiter_not_skipped c :
  _is_ignore_left d c = true -> char_in c D = false.
Proof.
  unfold delimiter_not_left_trimmed in Hdis. unfold _is_ignore_left.
  rewrite HD in Hdis. destruct (trimleft d) as [tl|]; try discriminate.
  intros Hc. destruct (char_in c D) eqn:E; auto.
  rewrite (str_disjoint_spec _ _ _ Hdis E) in Hc. discriminate.
Qed.

Lemma plain_char_inv c :
  plain_char d c = true -> _is_quote d c = false /\ _is_comment d c = false.
Proof.
  unfold plain_char. intros H. apply andb_prop in H. destruct H as [H1 H2].
  now apply negb_true_iff in H1, H2.
Qed.

Lemma flushed_pending st :
  mode st = MODE_INSIDE \/ mode st = MODE_OUTSIDE ->
  flushed d false st = line st ++ [join (trim_right d (field st))].
Proof.
  unfold flushed, yield_line, next_field.
  intros [H|H]; rewrite H; simpl; now rewrite trimright_join.
Qed.

(** The turns of the loop on a character that is neither a newline, nor a
    quote, nor a comment character. *)
Lemma step_inside_plain st c :
  mode st = MODE_INSIDE ->
  plain_char d c = true ->
  is_newline c = false ->
  step d false st c
  = Continue (if char_in c D then next_field d (advance st c)
              else set_field (field st ++ [c]) (advance st c)).
Proof.
  intros Hm Hp Hn. destruct (plain_char_inv c Hp) as [Hq _].
  unfold is_newline in Hn. unfold step, _is_delimiter.
  change (mode (advance st c)) with (mode st).
  change (field (advance st c)) with (field st).
  rewrite Hm, Hq, Hn, HD. now destruct (char_in c D).
Qed.

Lemma step_between_plain st c :
  mode st = MODE_OUTSIDE ->
  plain_char d c = true ->
  is_newline c = false ->
  step d false st c
  = Continue (if _is_ignore_left d c then advance st c
              else if char_in c D then next_field d (advance st c)
                   else set_field (field st ++ [c])
                                  (set_mode MODE_INSIDE (advance st c))).
Proof.
  intros Hm Hp Hn. destruct (plain_char_inv c Hp) as [Hq _].
  unfold is_newline in Hn. unfold step, _is_delimiter.
  change (mode (advance st c)) with (mode st).
  change (field (advance st c)) with (field st).
  rewrite Hm, Hq, Hn, HD. cbn [mode_eqb andb].
  destruct (_is_ignore_left d c); auto. now destruct (char_in c D).
Qed.

Lemma step_first_plain st c :
  mode st = MODE_FIRST ->
  plain_char d c = true ->
  is_newline c = false ->
  step d false st c
  = Continue (if _is_ignore_left d c then advance st c
              else if char_in c D then next_field d (advance st c)
                   else set_field (field st ++ [c])
                                  (set_mode MODE_INSIDE (advance st c))).
Proof.
  intros Hm Hp Hn. destruct (plain_char_inv c Hp) as [Hq Hc].
  unfold is_newline in Hn. unfold step, _is_delimiter.
  change (mode (advance st c)) with (mode st).
  change (field (advance st c)) with (field st).
  rewrite Hm, Hq, Hc, Hn, HD. cbn [mode_eqb andb].
  destruct (_is_ignore_left d c); auto. now destruct (char_in c D).
Qed.

(** Within a line, from inside a field and from between two fields: what
    will be flushed is what was closed so far followed by the reference's
    fields for the rest of the line. *)
Lemma scan_fields ln :
  forallb (plain_char d) ln = true ->
  no_newline ln = true ->
  (forall st,
      mode st = MODE_INSIDE ->
      exists st',
        scan d false st ln = Some ([], st')
        /\ (mode st' = MODE_INSIDE \/ mode st' = MODE_OUTSIDE)
        /\ flushed d false st' = line st ++ pending_fields d D (field st) ln)
  /\ (forall st,
        mode st = MODE_OUTSIDE ->
        field st = [] ->
        exists st',
          scan d false st ln = Some ([], st')
          /\ (mode st' = MODE_INSIDE \/ mode st' = MODE_OUTSIDE)
          /\ flushed d false st'
             = line st ++ map (trim_piece d) (split_on D ln)).
Proof.
  unfold no_newline.
  induction ln as [|c ln IH]; intros Hp Hn; cbn [forallb] in Hp, Hn.
  - split; intros st Hm; [|intros Hf]; exists st; cbn [scan].
    + split; auto. split; auto.
      rewrite flushed_pending by auto.
      unfold pending_fields. simpl. now rewrite app_nil_r.
    + split; auto. split; auto.
      rewrite flushed_pending by auto.
      simpl. now rewrite Hf, trim_piece_nil.
  - apply andb_prop in Hp. destruct Hp as [Hpc Hp].
    apply andb_prop in Hn. destruct Hn as [Hnc Hn].
    apply negb_true_iff in Hnc.
    destruct (IH Hp Hn) as [IHin IHout]. clear IH.
    destruct (split_on_cons D ln) as (p & ps & Esplit).
    split; intros st Hm; [|intros Hf]; cbn [scan].
    + rewrite (step_inside_plain st c Hm Hpc Hnc).
      unfold pending_fields. cbn [split_on].
      destruct (char_in c D) eqn:Ec.
      * destruct (IHout (next_field d (advance st c)) eq_refl eq_refl)
          as (st' & E & M & F).
        exists st'. rewrite E. split; auto. split; auto.
        rewrite F. unfold next_field. cbn [line mode].
        change (mode (advance st c)) with (mode st).
        change (line (advance st c)) with (line st).
        change (field (advance st c)) with (field st).
        rewrite Hm. cbn [mode_eqb negb].
        rewrite trimright_join, app_nil_r, <- app_assoc. reflexivity.
      * destruct (IHin (set_field (field st ++ [c]) (advance st c)) Hm)
          as (st' & E & M & F).
        exists st'. rewrite E. split; auto. split; auto.
        rewrite F. unfold pending_fields. rewrite Esplit.
        cbn [set_field field line].
        change (line (advance st c)) with (line st).
        now rewrite <- app_assoc.
    + rewrite (step_between_plain st c Hm Hpc Hnc).
      cbn [split_on].
      destruct (_is_ignore_left d c) eqn:Ei.
      * rewrite (delimiter_not_skipped c Ei).
        destruct (IHout (advance st c) Hm Hf) as (st' & E & M & F).
        exists st'. rewrite E. split; auto. split; auto.
        rewrite F, Esplit. cbn [map].
        change (line (advance st c)) with (line st).
        now rewrite (trim_piece_skip c p Ei).
      * destruct (char_in c D) eqn:Ec.
        -- destruct (IHout (next_field d (advance st c)) eq_refl eq_refl)
             as (st' & E & M & F).
           exists st'. rewrite E. split; auto. split; auto.
           rewrite F. unfold next_field. cbn [line mode].
           change (mode (advance st c)) with (mode st).
           change (line (advance st c)) with (line st).
           change (field (advance st c)) with (field st).
           rewrite Hm, Hf. cbn [mode_eqb negb map].
           rewrite trimright_join, trim_piece_nil, <- app_assoc. reflexivity.
        -- destruct (IHin (set_field (field st ++ [c])
                                     (set_mode MODE_INSIDE (advance st c)))
                          eq_refl)
             as (st' & E & M & F).
           exists st'. rewrite E. split; auto. split; auto.
           rewrite F. unfold pending_fields. rewrite Esplit.
           cbn [set_field set_mode field line map].
           change (line (advance st c)) with (line st).
           rewrite Hf, (trim_piece_keep c p Ei). reflexivity.
Qed.

(** A whole line, from its start. *)
Lemma scan_line ln :
  forallb (plain_char d) ln = true ->
  no_newline ln = true ->
  forall st,
    mode st = MODE_FIRST -> field st = [] -> line st = [] ->
    exists st',
      scan d false st ln = Some ([], st')
      /\ ((blank_line d ln = true
           /\ mode st' = MODE_FIRST /\ field st' = [] /\ line st' = [])
          \/ (blank_line d ln = false
              /\ (mode st' = MODE_INSIDE \/ mode st' = MODE_OUTSIDE)
              /\ flushed d false st' = reference_fields d ln)).
Proof.
  unfold reference_fields. rewrite HD.
  induction ln as [|c ln IH]; intros Hp Hn st Hm Hf Hl.
  - exists st. split; auto.
  - pose proof Hp as Hp'. pose proof Hn as Hn'.
    unfold no_newline in Hn'. cbn [forallb] in Hp', Hn'.
    apply andb_prop in Hp'. destruct Hp' as [Hpc Hpl].
    apply andb_prop in Hn'. destruct Hn' as [Hnc Hnl].
    apply negb_true_iff in Hnc.
    destruct (scan_fields ln Hpl Hnl) as [Hin Hout].
    destruct (split_on_cons D ln) as (p & ps & Esplit).
    cbn [scan]. rewrite (step_first_plain st c Hm Hpc Hnc).
    unfold blank_line. cbn [forallb split_on].
    destruct (_is_ignore_left d c) eqn:Ei.
    + rewrite (delimiter_not_skipped c Ei).
      destruct (IH Hpl Hnl (advance st c) Hm Hf Hl) as (st' & E & H).
      exists st'. split; auto. cbn [andb].
      rewrite Esplit in *. cbn [map] in *.
      now rewrite (trim_piece_skip c p Ei).
    + cbn [andb]. destruct (char_in c D) eqn:Ec.
      * destruct (Hout (next_field d (advance st c)) eq_refl eq_refl)
          as (st' & E & M & F).
        exists st'. split; auto. right. split; auto. split; auto.
        rewrite F. unfold next_field. cbn [line mode map].
        change (mode (advance st c)) with (mode st).
        change (line (advance st c)) with (line st).
        change (field (advance st c)) with (field st).
        rewrite Hm, Hf, Hl. cbn [mode_eqb negb app].
        now rewrite trimright_join, trim_piece_nil.
      * destruct (Hin (set_field (field st ++ [c])
                                 (set_mode MODE_INSIDE (advance st c)))
                      eq_refl)
          as (st' & E & M & F).
        exists st'. split; auto. right. split; auto. split; auto.
        rewrite F. unfold pending_fields. rewrite Esplit.
        cbn [set_field set_mode field line map].
        change (line (advance st c)) with (line st).
        rewrite Hf, Hl, (trim_piece_keep c p Ei). reflexivity.
Qed.

(** A newline ends the row of a line that has one. *)
Lemma step_newline_yields st nl :
  mode st = MODE_INSIDE \/ mode st = MODE_OUTSIDE ->
  plain_char d nl = true ->
  is_newline nl = true ->
  step d false st nl = yielding (yield_line d false (advance st nl)).
Proof.
  intros Hm Hp Hn. destruct (plain_char_inv nl Hp) as [Hq _].
  unfold is_newline in Hn. unfold step.
  change (mode (advance st nl)) with (mode st).
  destruct Hm as [Hm|Hm]; rewrite Hm; now rewrite ?Hq, Hn.
Qed.

Lemma run_lines n : forall input st,
  (length input <= n)%nat ->
  forallb (plain_char d) input = true ->
  mode st = MODE_FIRST -> field st = [] -> line st = [] ->
  map items (fst (run d false st input)) = reference_rows d input
  /\ snd (run d false st input) = Exhausted.
Proof.
  induction n as [|n IH]; intros input st Hlen Hp Hm Hf Hl;
    destruct (input_lines_split input)
      as (ln & Hn & [[-> E]|(nl & more & Hnl & -> & E)]);
    unfold reference_rows; rewrite E; cbn [filter].
  1, 3:
    destruct (scan_line ln Hp Hn st Hm Hf Hl)
      as (st' & Es & [(Hb & M & F & L)|(Hb & M & F)]);
    rewrite (run_scan _ _ _ _ _ _ Es), Hb; unfold finish;
    [ rewrite M; auto
    | destruct M as [M|M]; rewrite M; cbn [negb map fst snd app];
      fold (flushed d false st'); rewrite F; auto ].
  - rewrite length_app in Hlen. cbn [length] in Hlen. lia.
  - rewrite forallb_app in Hp. cbn [forallb] in Hp.
    apply andb_prop in Hp. destruct Hp as [Hpl Hp].
    apply andb_prop in Hp. destruct Hp as [Hpn Hpm].
    rewrite length_app in Hlen. cbn [length] in Hlen.
    assert (Hlen' : (length more <= n)%nat) by lia.
    destruct (scan_line ln Hpl Hn st Hm Hf Hl)
      as (st' & Es & [(Hb & M & F & L)|(Hb & M & F)]);
      rewrite (run_app _ _ _ _ _ _ _ Es), Hb; cbn [app fst snd run negb].
    + rewrite (step_first_newline d false st' nl M Hnl).
      apply (IH more (advance st' nl) Hlen' Hpm M F L).
    + rewrite (step_newline_yields st' nl M Hpn Hnl).
      unfold yielding, emit. cbn [fst snd map].
      fold (flushed d false (advance st' nl)).
      rewrite flushed_advance, F.
      destruct (IH more (snd (yield_line d false (advance st' nl)))
                   Hlen' Hpm eq_refl eq_refl eq_refl) as [Hrows Hout].
      rewrite Hout. split; auto. f_equal. exact Hrows.
Qed.

End Refinement.

(** C2, as the code has it.  In a dialect whose delimiter characters are not
    left-trim characters and whose delimiter string does not occur in its
    right-trim string, on an input without quote and comment characters, the
    reader yields one row for every line that holds more than left-trim
    characters, in order, with the fields the reference gives for that line:
    the line split on the delimiter characters, every piece trimmed on the
    left and on the right.  Lines of left-trim characters only yield no row,
    and the run ends normally. *)
Theorem reader_refines_split_and_trim (d : Dialect) (input : list ascii) :
  compute_delimiter_is_whitespace d = Some false ->
  delimiter_not_left_trimmed d = true ->
  forallb (plain_char d) input = true ->
  map items (fst (Reader_iter d input)) = reference_rows d input
  /\ snd (Reader_iter d input) = Exhausted.
Proof.
  intros Hdiw Hdis Hp. unfold Reader_iter. rewrite Hdiw.
  unfold compute_delimiter_is_whitespace in Hdiw.
  destruct (trimright d) as [R|] eqn:HR; try discriminate.
  destruct (delimiter d) as [D|] eqn:HD; try discriminate.
  apply (run_lines d D R HD HR Hdis (length input)); auto.
Qed.

Lemma reader_refines_split_and_trim_witness :
  map items (fst (Reader_iter DefaultDialect
                    (chars " a b ,, c" ++ [CR; LF] ++ chars "  " ++ [LF]
                     ++ chars ",x ")))
  = [["a b"; ""; "c"]; [""; "x"]]
  /\ snd (Reader_iter DefaultDialect
            (chars " a b ,, c" ++ [CR; LF] ++ chars "  " ++ [LF]
             ++ chars ",x "))
     = Exhausted.
Proof.
  apply (reader_refines_split_and_trim DefaultDialect
           (chars " a b ,, c" ++ [CR; LF] ++ chars "  " ++ [LF] ++ chars ",x "));
    reflexivity.
Defined.

(** C2, the claim as it is stated, refuted: in the whitespace dialect the
    delimiter characters are left-trim characters too, so a run of them
    between two fields is skipped, where splitting on each of them gives
    empty pieces. *)
Lemma whitespace_dialect_collapses :
  ~ (forall (d : Dialect) (input : list ascii),
        forallb (plain_char d) input = true ->
        map items (fst (Reader_iter d input))
        = map (reference_fields d) (input_lines input)).
Proof.
  intros H. specialize (H WhitespaceDialect (chars "a  b") eq_refl).
  vm_compute in H. discriminate H.
Qed.

(** In the default dialect too a blank line has a reference result, one
    empty field, and no row. *)
Lemma blank_line_no_row :
  fst (Reader_iter DefaultDialect [LF]) = []
  /\ reference_fields DefaultDialect [] = [""].
Proof. split; reflexivity. Qed.

(** * Further properties of the reader *)

(** ** Debug rendering *)

Lemma lor_control_picture cp :
  0 <= cp < 256 -> Z.lor 9216 cp = 9216 + cp.
Proof.
  intros H.
  assert (Hland : Z.land 9216 cp = 0); [|rewrite <- (Z.lxor_lor _ _ Hland);
                                          symmetry; now apply Z.add_nocarry_lxor].
  apply Z.bits_inj'. intros n Hn.
  rewrite Z.land_spec, Z.bits_0.
  destruct (Z.lt_ge_cases n 8) as [Hlt|Hge].
  - replace 9216 with (36 * 2 ^ 8) by reflexivity.
    now rewrite Z.mul_pow2_bits_low.
  - assert (Hb : Z.testbit cp n = false).
    { destruct (Z.eq_dec cp 0) as [->|Hz]; [apply Z.bits_0|].
      apply Z.bits_above_log2; [lia|].
      apply Z.log2_lt_pow2; [lia|].
      apply Z.lt_le_trans with (2 ^ 8); [lia|].
      apply Z.pow_le_mono_r; lia. }
    rewrite Hb. apply andb_false_r.
Qed.

(** X1, debug rendering.  The control characters, U+0000 to U+001F and
    U+007F to U+009F, are rendered as the character 0x2400 places further on, and everything else
    as itself; what comes out is never a control character, and rendering
    twice changes nothing more. *)
Theorem debug_repr_spec (cp : Z) :
  (is_control cp = true ->
   _debug_repr cp = 9216 + cp /\ 9216 <= _debug_repr cp <= 9375)
  /\ (is_control cp = false -> _debug_repr cp = cp)
  /\ is_control (_debug_repr cp) = false
  /\ _debug_repr (_debug_repr cp) = _debug_repr cp.
Proof.
  assert (Hc : is_control cp = true ->
               _debug_repr cp = 9216 + cp /\ 0 <= cp <= 159).
  { intros H. unfold _debug_repr. rewrite H.
    unfold is_control in H.
    assert (0 <= cp <= 159) by lia.
    split; [apply lor_control_picture|]; lia. }
  assert (Hn : is_control (_debug_repr cp) = false).
  { destruct (is_control cp) eqn:E.
    - destruct (Hc eq_refl) as [-> ?]. unfold is_control. lia.
    - unfold _debug_repr. now rewrite E. }
  repeat split.
  - now apply Hc.
  - destruct (Hc H) as [-> ?]. lia.
  - destruct (Hc H) as [-> ?]. lia.
  - intros H. unfold _debug_repr. now rewrite H.
  - exact Hn.
  - unfold _debug_repr at 1. now rewrite Hn.
Qed.

(** ** What a run can end in *)

Section Outcomes.

Variable d : Dialect.
Variable diw : bool.
Variable D : string.
Hypothesis HD : delimiter d = Some D.

Lemma is_delimiter_some c : _is_delimiter d c = Some (char_in c D).
Proof. unfold _is_delimiter. now rewrite HD. Qed.

(** With a delimiter set, the only exception the loop raises is
    [UnallowedQuoteError]. *)
Lemma step_raise_kind st c e :
  step d diw st c = Raise e ->
  exists msg l ch i, e = UnallowedQuoteError msg l ch i.
Proof.
  unfold step. rewrite is_delimiter_some.
  unfold yielding, yield_line, next_field, set_field, set_mode, advance.
  destruct st as [[] ? ? ? ? ? ? ? ?]; simpl; split_tests; simpl;
    intros H; inversion H; subst; eauto.
Qed.

(** Without a quote character in sight the reader stays out of the quoted
    modes and the loop raises nothing. *)
Lemma step_quote_free st c :
  quoted_mode (Some (mode st)) = false ->
  _is_quote d c = false ->
  exists st',
    (step d diw st c = Continue st' \/ exists l, step d diw st c = Yield l st')
    /\ quoted_mode (Some (mode st')) = false.
Proof.
  unfold step. rewrite is_delimiter_some. intros Hm Hq. rewrite Hq.
  unfold yielding, yield_line, next_field, set_field, set_mode, advance.
  destruct st as [[] ? ? ? ? ? ? ? ?]; simpl in *; try discriminate;
    split_tests; simpl; eauto 6.
Qed.

Lemma run_quote_free input : forall st,
  quoted_mode (Some (mode st)) = false ->
  quote_free d input = true ->
  snd (run d diw st input) = Exhausted.
Proof.
  unfold quote_free.
  induction input as [|c rest IH]; intros st Hm Hq; cbn [run forallb] in *.
  - unfold finish. destruct (mode st); try discriminate; reflexivity.
  - apply andb_prop in Hq. destruct Hq as [Hc Hq].
    apply negb_true_iff in Hc.
    destruct (step_quote_free st c Hm Hc) as (st' & [E|[l E]] & Hm');
      rewrite E; cbn [emit snd]; auto.
Qed.

(** A row is only yielded on a newline character; it is stamped with the
    line counter as just advanced, and leaves the reader at the start of a
    line. *)
Lemma step_yield st c l st' :
  step d diw st c = Yield l st' ->
  is_newline c = true
  /\ lineno l = cur_line st + 1
  /\ cur_line st' = cur_line st + 1
  /\ mode st' = MODE_FIRST.
Proof.
  unfold is_newline, step. rewrite is_delimiter_some.
  unfold yielding, yield_line, next_field, set_field, set_mode, advance.
  destruct st as [[] ? ? ? ? ? ? ? ?]; simpl; split_tests; simpl;
    intros H; inversion H; subst; simpl; auto.
Qed.

Lemma step_continue_line st c st' :
  step d diw st c = Continue st' ->
  cur_line st' = if is_newline c then cur_line st + 1 else cur_line st.
Proof.
  intros H.
  destruct (step_counters d diw st c st' (or_introl H)) as (-> & _).
  reflexivity.
Qed.

Lemma finish_lineno st l :
  In l (fst (finish d diw st)) -> lineno l = cur_line st.
Proof.
  unfold finish, yield_line, next_field.
  destruct st as [[] ? ? ? ? ? ? ? ?]; simpl; try tauto;
    try (destruct diw; simpl); intros [<-|[]]; reflexivity.
Qed.

Lemma finish_rows st : (length (fst (finish d diw st)) <= 1)%nat.
Proof. unfold finish. destruct (mode st); simpl; lia. Qed.

Lemma newlines_cons c rest :
  newlines (c :: rest)
  = if is_newline c then newlines rest + 1 else newlines rest.
Proof.
  unfold newlines. cbn [filter]. destruct (is_newline c); cbn [length]; lia.
Qed.

Lemma newlines_nonneg input : 0 <= newlines input.
Proof. unfold newlines. lia. Qed.

Lemma run_row_count input : forall st,
  Z.of_nat (length (fst (run d diw st input))) <= newlines input + 1.
Proof.
  induction input as [|c rest IH]; intros st; cbn [run].
  - pose proof (finish_rows st). unfold newlines. simpl. lia.
  - rewrite newlines_cons.
    destruct (step d diw st c) as [s1|l s1|e] eqn:E.
    + specialize (IH s1). destruct (is_newline c); lia.
    + destruct (step_yield _ _ _ _ E) as (-> & _).
      specialize (IH s1). unfold emit. cbn [fst length]. lia.
    + pose proof (newlines_nonneg rest). simpl. destruct (is_newline c); lia.
Qed.

Lemma run_linenos input : forall st,
  StronglySorted Z.le (map lineno (fst (run d diw st input)))
  /\ Forall (fun l => cur_line st <= lineno l <= cur_line st + newlines input)
            (fst (run d diw st input)).
Proof.
  induction input as [|c rest IH]; intros st; cbn [run].
  - split.
    + unfold finish. destruct (mode st); simpl; repeat constructor.
    + apply Forall_forall. intros l Hl. rewrite (finish_lineno _ _ Hl).
      unfold newlines. simpl. lia.
  - rewrite newlines_cons. pose proof (newlines_nonneg rest) as Hnn.
    destruct (step d diw st c) as [s1|l s1|e] eqn:E.
    + destruct (IH s1) as [Hs Hb]. split; auto.
      rewrite (step_continue_line _ _ _ E) in Hb.
      eapply Forall_impl; [|exact Hb]. cbv beta.
      intros l Hl. destruct (is_newline c); lia.
    + destruct (step_yield _ _ _ _ E) as (-> & Hl & Hc & _).
      destruct (IH s1) as [Hs Hb]. rewrite Hc in Hb.
      unfold emit. cbn [fst map]. split.
      * constructor; auto.
        apply Forall_map. eapply Forall_impl; [|exact Hb]. cbv beta.
        intros l' Hl'. lia.
      * constructor; [lia|].
        eapply Forall_impl; [|exact Hb]. cbv beta. intros l' Hl'. lia.
    + simpl. split; constructor.
Qed.

End Outcomes.

Lemma compute_some d diw :
  compute_delimiter_is_whitespace d = Some diw ->
  exists D R, delimiter d = Some D /\ trimright d = Some R /\ diw = str_in D R.
Proof.
  unfold compute_delimiter_is_whitespace.
  destruct (trimright d) as [R|]; try discriminate.
  destruct (delimiter d) as [D|]; try discriminate.
  intros H. inversion H. eauto.
Qed.

Lemma firstn_through pre (c : ascii) post :
  firstn (length (pre ++ [c])) (pre ++ c :: post) = pre ++ [c].
Proof.
  replace (pre ++ c :: post) with ((pre ++ [c]) ++ post)
    by now rewrite <- app_assoc.
  rewrite firstn_app, Nat.sub_diag, firstn_all. simpl. apply app_nil_r.
Qed.

(** Where a run that ended in an exception raised it. *)
Lemma raised_at d diw input ls e :
  compute_delimiter_is_whitespace d = Some diw ->
  run d diw initial_state input = (ls, Raised e) ->
  exists pre c post,
    input = pre ++ c :: post
    /\ ((exists msg,
            e = UnallowedQuoteError msg (line_at (pre ++ [c]))
                                    (column_at (pre ++ [c]))
                                    (index_at (pre ++ [c])))
        \/ e = UnclosedQuoteError "Unexpected end"
                                  (Some (line_at (pre ++ [c])))
                                  (Some (column_at (pre ++ [c])))
                                  (Some (index_at (pre ++ [c])))).
Proof.
  intros Hdiw Hrun.
  destruct (compute_some d diw Hdiw) as (D & R & HD & _ & _).
  apply run_raised in Hrun.
  destruct Hrun as [(pre & c & post & st & E1 & E2 & E3)|(st & E1 & E2 & E3)].
  - exists pre, c, post. split; auto. left.
    destruct (step_raise_kind d diw D HD st c e E3) as (msg & l & ch & i & ->).
    apply step_unallowed in E3. destruct E3 as (-> & -> & -> & _).
    destruct (scan_position _ _ _ _ _ E2) as (Hl & Hc & Hi).
    destruct (advance_position pre st c Hl Hc Hi) as (-> & -> & ->).
    eauto.
  - assert (Hq : quoted_mode (Some (mode st)) = true) by now rewrite E2.
    destruct (quoted_invariant d diw input ls st E1 Hq)
      as (pre & q & post & E & _ & Pl & Pc & Pi).
    exists pre, q, post. split; auto. right.
    now rewrite E3, Pl, Pc, Pi.
Qed.

(** X2, the exceptions of a run.  Iterating raises [TypeError], before a
    character is read, exactly when the dialect lacks a delimiter or a
    right-trim set; otherwise a run that fails fails with one of the two
    quote errors, never with a dialect error. *)
Theorem run_exceptions (d : Dialect) (input : list ascii) ls e :
  Reader_iter d input = (ls, Raised e) ->
  (compute_delimiter_is_whitespace d = None /\ ls = [] /\ e = TypeError)
  \/ (compute_delimiter_is_whitespace d <> None
      /\ ((exists msg l c i, e = UnallowedQuoteError msg l c i)
          \/ (exists l c i,
                 e = UnclosedQuoteError "Unexpected end"
                                        (Some l) (Some c) (Some i)))).
Proof.
  unfold Reader_iter.
  destruct (compute_delimiter_is_whitespace d) as [diw|] eqn:Hdiw; intros H.
  - right. split; [discriminate|].
    destruct (raised_at d diw input ls e Hdiw H)
      as (pre & c & post & _ & [[msg ->]| ->]); eauto 10.
  - left. inversion H. auto.
Qed.

Lemma run_exceptions_witness :
  (compute_delimiter_is_whitespace (with_commentchar BaseDialect (Some "#")) = None
   /\ @nil Line = [] /\ TypeError = TypeError)
  \/ (compute_delimiter_is_whitespace (with_commentchar BaseDialect (Some "#")) <> None
      /\ ((exists msg l c i, TypeError = UnallowedQuoteError msg l c i)
          \/ (exists l c i,
                 TypeError = UnclosedQuoteError "Unexpected end"
                                                (Some l) (Some c) (Some i)))).
Proof.
  apply (run_exceptions (with_commentchar BaseDialect (Some "#")) (chars "a,b")
                        [] TypeError eq_refl).
Defined.

(** X3, where an error points.  The index a quote error carries counts the
    characters of the input up to and including the one it is about, so it
    lies between 1 and the length of the input; the line and column it
    carries are the line and column of that same character. *)
Theorem error_position_in_input (d : Dialect) (input : list ascii) ls e l c i :
  Reader_iter d input = (ls, Raised e) ->
  error_position e = Some (l, c, i) ->
  1 <= i <= Z.of_nat (length input)
  /\ l = line_at (firstn (Z.to_nat i) input)
  /\ c = column_at (firstn (Z.to_nat i) input).
Proof.
  unfold Reader_iter.
  destruct (compute_delimiter_is_whitespace d) as [diw|] eqn:Hdiw; intros H Hpos.
  - destruct (raised_at d diw input ls e Hdiw H)
      as (pre & ch & post & -> & [[msg ->]| ->]);
      simpl in Hpos; inversion Hpos; subst; unfold index_at;
      rewrite Nat2Z.id, firstn_through;
      rewrite !length_app; cbn [length]; repeat split; lia.
  - inversion H; subst. discriminate.
Qed.

Lemma error_position_in_input_witness :
  1 <= 6 <= Z.of_nat (length (chars "a,b" ++ [LF] ++ chars "c" ++ [DQUOTE; "d"%char]))
  /\ 2 = line_at (firstn (Z.to_nat 6)
                         (chars "a,b" ++ [LF] ++ chars "c" ++ [DQUOTE; "d"%char]))
  /\ 2 = column_at (firstn (Z.to_nat 6)
                           (chars "a,b" ++ [LF] ++ chars "c" ++ [DQUOTE; "d"%char])).
Proof.
  apply (error_position_in_input DefaultDialect
           (chars "a,b" ++ [LF] ++ chars "c" ++ [DQUOTE; "d"%char])
           [mkLine ["a"; "b"] 2]
           (UnallowedQuoteError "Quote not allowed here" 2 2 6) 2 2 6);
    reflexivity.
Defined.

(** X4, input without quotes.  Whatever the dialect, as long as it has a
    delimiter and a right-trim set, an input in which no character is the
    quote character is read to the end without an exception. *)
Theorem quote_free_never_raises (d : Dialect) (input : list ascii) diw :
  compute_delimiter_is_whitespace d = Some diw ->
  quote_free d input = true ->
  snd (Reader_iter d input) = Exhausted.
Proof.
  intros Hdiw Hq. unfold Reader_iter. rewrite Hdiw.
  destruct (compute_some d diw Hdiw) as (D & R & HD & _ & _).
  now apply (run_quote_free d diw D HD).
Qed.

Lemma quote_free_never_raises_witness :
  snd (Reader_iter WhitespaceDialect (chars "a b # c" ++ [LF] ++ chars "# d"))
  = Exhausted.
Proof.
  apply (quote_free_never_raises WhitespaceDialect
           (chars "a b # c" ++ [LF] ++ chars "# d") true eq_refl eq_refl).
Defined.

(** X5, how many rows.  A run yields at most one row per newline character
    of the input, and one more for what follows the last of them. *)
Theorem row_count_bound (d : Dialect) (input : list ascii) :
  Z.of_nat (length (fst (Reader_iter d input))) <= newlines input + 1.
Proof.
  unfold Reader_iter.
  destruct (compute_delimiter_is_whitespace d) as [diw|] eqn:Hdiw.
  - destruct (compute_some d diw Hdiw) as (D & R & HD & _ & _).
    apply (run_row_count d diw D HD).
  - pose proof (newlines_nonneg input). simpl. lia.
Qed.

(** X6, line numbers of rows.  The line numbers of the rows of a run never
    decrease from one row to the next, and each lies between 1 and one more
    than the number of newline characters of the input. *)
Theorem linenos_sorted_bounded (d : Dialect) (input : list ascii) :
  StronglySorted Z.le (map lineno (fst (Reader_iter d input)))
  /\ Forall (fun l => 1 <= lineno l <= 1 + newlines input)
            (fst (Reader_iter d input)).
Proof.
  unfold Reader_iter.
  destruct (compute_delimiter_is_whitespace d) as [diw|] eqn:Hdiw.
  - destruct (compute_some d diw Hdiw) as (D & R & HD & _ & _).
    apply (run_linenos d diw D HD input initial_state).
  - simpl. split; constructor.
Qed.

(** ** Right trimming *)

Lemma rstrip_list_split cs data :
  exists suffix,
    data = rstrip_list cs data ++ suffix
    /\ forallb (fun c => char_in c cs) suffix = true.
Proof.
  induction data as [|c rest (suffix & E & H)]; [exists []; auto|].
  cbn [rstrip_list].
  destruct (rstrip_list cs rest) as [|x kept] eqn:Er.
  - destruct (char_in c cs) eqn:Ec.
    + exists (c :: rest). split; auto.
      simpl in E. subst suffix. cbn [forallb]. now rewrite Ec.
    + exists suffix. split; auto. simpl in *. now rewrite E at 1.
  - exists suffix. split; auto. simpl. now rewrite E at 1.
Qed.

Lemma last_char_cons c r :
  r <> [] -> last_char (c :: r) = last_char r.
Proof.
  unfold last_char. cbn [rev]. intros H.
  destruct (rev r) as [|y ys] eqn:E; [|reflexivity].
  apply (f_equal (@rev ascii)) in E. rewrite rev_involutive in E. now subst.
Qed.

Lemma rstrip_list_last cs data :
  match last_char (rstrip_list cs data) with
  | Some c => char_in c cs = false
  | None => True
  end.
Proof.
  induction data as [|c rest IH]; [exact I|].
  cbn [rstrip_list].
  destruct (rstrip_list cs rest) as [|x kept] eqn:Er.
  - destruct (char_in c cs) eqn:Ec; simpl; auto.
  - rewrite last_char_cons by discriminate. exact IH.
Qed.

Lemma rstrip_list_idem cs data :
  rstrip_list cs (rstrip_list cs data) = rstrip_list cs data.
Proof.
  induction data as [|c rest IH]; [reflexivity|].
  cbn [rstrip_list].
  destruct (rstrip_list cs rest) as [|x kept] eqn:Er.
  - destruct (char_in c cs) eqn:Ec; simpl; now rewrite ?Ec.
  - cbn [rstrip_list]. cbn [rstrip_list] in IH. now rewrite IH.
Qed.

(** X7, [_trimright].  What it returns is the argument less a run of
    right-trim characters at its end; it does not end in a right-trim
    character; so trimming again changes nothing.  Without a right-trim set
    it returns the argument. *)
Theorem trimright_spec (d : Dialect) (data : string) :
  (exists suffix,
      list_ascii_of_string data
      = list_ascii_of_string (_trimright d data) ++ suffix
      /\ forallb (_is_ignore_right d) suffix = true)
  /\ match last_char (list_ascii_of_string (_trimright d data)) with
     | Some c => _is_ignore_right d c = false
     | None => True
     end
  /\ _trimright d (_trimright d data) = _trimright d data
  /\ (trimright d = None -> _trimright d data = data).
Proof.
  unfold _trimright, _is_ignore_right, rstrip.
  destruct (trimright d) as [cs|].
  - rewrite !list_ascii_of_string_of_list_ascii, rstrip_list_idem.
    repeat split; try discriminate.
    + apply rstrip_list_split.
    + apply rstrip_list_last.
  - repeat split.
    + exists []. now rewrite app_nil_r.
    + now destruct (last_char (list_ascii_of_string data)).
Qed.

(** ** Blank input *)

Lemma run_blank d diw input : forall st,
  mode st = MODE_FIRST ->
  blank_input d input = true ->
  run d diw st input = ([], Exhausted).
Proof.
  unfold blank_input.
  induction input as [|c rest IH]; intros st Hm Hb; cbn [run forallb] in *.
  - unfold finish. now rewrite Hm.
  - apply andb_prop in Hb. destruct Hb as [Hc Hb].
    assert (E : step d diw st c = Continue (advance st c)).
    { unfold step. change (mode (advance st c)) with (mode st).
      rewrite Hm. unfold is_newline in Hc.
      destruct (char_in c newlinechars); [reflexivity|].
      simpl in Hc. now rewrite Hc. }
    rewrite E. now apply IH.
Qed.

(** X8, blank input.  An input of newline and left-trim characters only,
    the empty input included, yields no row and raises nothing. *)
Theorem blank_input_no_rows (d : Dialect) (input : list ascii) diw :
  compute_delimiter_is_whitespace d = Some diw ->
  blank_input d input = true ->
  Reader_iter d input = ([], Exhausted).
Proof.
  intros Hdiw Hb. unfold Reader_iter. rewrite Hdiw.
  now apply run_blank.
Qed.

Lemma blank_input_no_rows_witness :
  Reader_iter WhitespaceDialect ([LF; CR; TAB] ++ chars "  " ++ [LF; " "%char])
  = ([], Exhausted).
Proof.
  apply (blank_input_no_rows WhitespaceDialect
           ([LF; CR; TAB] ++ chars "  " ++ [LF; " "%char]) true eq_refl eq_refl).
Defined.

(** ** Fields of unquoted input *)

Section Unquoted.

Variable d : Dialect.
Variable diw : bool.
Variable D : string.
Hypothesis HD : delimiter d = Some D.
Variable good : Field -> bool.
Hypothesis Hclose :
  forall f, f <> [] -> buffer_ok d f = true ->
            good (_trimright d (join f)) = true.
Hypothesis Hempty :
  good (_trimright d (join [])) = true
  \/ (diw = true /\ forall c, char_in c D = true -> _is_ignore_left d c = true).

Lemma is_delimiter_char_D c : is_delimiter_char d c = char_in c D.
Proof. unfold is_delimiter_char, _is_delimiter. now rewrite HD. Qed.

Lemma buffer_ok_start c :
  char_in c D = false -> is_newline c = false -> _is_ignore_left d c = false ->
  buffer_ok d [c] = true.
Proof.
  unfold buffer_ok, field_char. cbn [forallb].
  rewrite is_delimiter_char_D. now intros -> -> ->.
Qed.

Lemma buffer_ok_snoc f c :
  f <> [] -> buffer_ok d f = true ->
  char_in c D = false -> is_newline c = false ->
  buffer_ok d (f ++ [c]) = true.
Proof.
  unfold buffer_ok, field_char. intros Hf Hb Hc Hn.
  apply andb_prop in Hb. destruct Hb as [Hall Hhead].
  rewrite forallb_app, Hall. cbn [forallb].
  rewrite is_delimiter_char_D, Hc, Hn.
  destruct f; [contradiction|]. exact Hhead.
Qed.

Lemma good_snoc l x :
  forallb good l = true -> good x = true -> forallb good (l ++ [x]) = true.
Proof. intros Hl Hx. rewrite forallb_app, Hl. simpl. now rewrite Hx. Qed.

Lemma step_unquoted_inv st c :
  unquoted_inv d good st ->
  _is_quote d c = false ->
  match step d diw st c with
  | Continue st' => unquoted_inv d good st'
  | Yield l st' => forallb good (items l) = true /\ unquoted_inv d good st'
  | Raise _ => False
  end.
Proof.
  unfold unquoted_inv, step. rewrite (is_delimiter_some d D HD).
  intros [Hm Hl] Hq. rewrite Hq.
  unfold yielding, yield_line, next_field, set_field, set_mode, advance.
  destruct st as [[] f l ? ? ? ? ? ?]; simpl in *; try contradiction;
    split_tests; simpl.
  all: try (subst f).
  all: destruct Hm as [Hne Hb] || idtac.
  all: repeat match goal with |- _ /\ _ => split end; auto.
  all: try (apply snoc_not_nil).
  all: try (apply buffer_ok_start; assumption).
  all: try (apply buffer_ok_snoc; assumption).
  all: try (apply good_snoc; [assumption|]).
  all: try (apply Hclose; assumption).
  all: destruct Hempty as [He|[Hw Hskip]]; try exact He.
  all: try (subst diw; discriminate).
  all: match goal with
       | H : char_in ?c D = true |- _ =>
           rewrite (Hskip c H) in *; discriminate
       end.
Qed.

Lemma run_unquoted_inv input : forall st,
  unquoted_inv d good st ->
  quote_free d input = true ->
  Forall (fun l => forallb good (items l) = true) (fst (run d diw st input)).
Proof.
  unfold quote_free.
  induction input as [|c rest IH]; intros st Hinv Hq; cbn [run forallb] in *.
  - unfold finish, yield_line, next_field.
    destruct Hinv as [Hm Hl].
    destruct st as [[] f l ? ? ? ? ? ?]; simpl in *; try contradiction;
      try constructor; auto; simpl.
    + subst f. destruct diw eqn:Ew; simpl; auto.
      apply good_snoc; auto.
      destruct Hempty as [He|[Hw _]]; [exact He|discriminate].
    + destruct Hm as [Hne Hb]. apply good_snoc; auto.
  - apply andb_prop in Hq. destruct Hq as [Hc Hq].
    apply negb_true_iff in Hc.
    pose proof (step_unquoted_inv st c Hinv Hc) as Hs.
    destruct (step d diw st c) as [s1|l s1|e]; try contradiction.
    + now apply IH.
    + destruct Hs as [Hl Hs]. unfold emit. cbn [fst].
      constructor; auto.
Qed.

End Unquoted.

Lemma trimmed_closed d f :
  buffer_ok d f = true -> trimmed_field d (_trimright d (join f)) = true.
Proof.
  unfold buffer_ok. intros Hb. apply andb_prop in Hb. destruct Hb as [Hall Hhead].
  unfold trimmed_field, _trimright, _is_ignore_right, rstrip, join.
  fold (field_char d).
  destruct (trimright d) as [cs|];
    rewrite !list_ascii_of_string_of_list_ascii.
  - destruct (rstrip_list_split cs f) as (suffix & E & _).
    pose proof (rstrip_list_last cs f) as Hlast.
    destruct (rstrip_list cs f) as [|c r] eqn:Er.
    + reflexivity.
    + rewrite E in Hall, Hhead. rewrite forallb_app in Hall.
      apply andb_prop in Hall. destruct Hall as [Hall _].
      rewrite Hall. cbn [app] in Hhead. rewrite Hhead.
      destruct (last_char (c :: r)); [now rewrite Hlast|reflexivity].
  - rewrite Hall, Hhead. now destruct (last_char f).
Qed.

(** X9, unquoted fields.  On an input without the quote character, every
    field of every row holds no delimiter and no newline character, does
    not start with a left-trim character and does not end with a right-trim
    character. *)
Theorem unquoted_fields_trimmed (d : Dialect) (input : list ascii) diw :
  compute_delimiter_is_whitespace d = Some diw ->
  quote_free d input = true ->
  Forall (fun l => forallb (trimmed_field d) (items l) = true)
         (fst (Reader_iter d input)).
Proof.
  intros Hdiw Hq. unfold Reader_iter. rewrite Hdiw.
  destruct (compute_some d diw Hdiw) as (D & R & HD & _ & _).
  apply (run_unquoted_inv d diw D HD (trimmed_field d)); auto.
  - intros f _ Hb. now apply trimmed_closed.
  - left. now apply trimmed_closed.
  - split; reflexivity.
Qed.

Lemma unquoted_fields_trimmed_witness :
  Forall (fun l => forallb (trimmed_field DefaultDialect) (items l) = true)
         (fst (Reader_iter DefaultDialect
                 (chars " a b , c" ++ [TAB; LF] ++ chars ",, d "))).
Proof.
  apply (unquoted_fields_trimmed DefaultDialect
           (chars " a b , c" ++ [TAB; LF] ++ chars ",, d ") false
           eq_refl eq_refl).
Defined.

Lemma str_subset_spec a b c :
  str_subset a b = true -> char_in c a = true -> char_in c b = true.
Proof.
  induction a as [|x a IH]; simpl; intros H Hc; try discriminate.
  apply andb_prop in H. destruct H as [Hx Ha].
  apply orb_prop in Hc. destruct Hc as [Hc|Hc]; auto.
  apply Ascii.eqb_eq in Hc. now subst.
Qed.

Lemma collapsing_inv d :
  collapsing d = true ->
  exists D L R,
    delimiter d = Some D /\ trimleft d = Some L /\ trimright d = Some R
    /\ compute_delimiter_is_whitespace d = Some true
    /\ (forall c, char_in c D = true -> char_in c L = true)
    /\ (forall c, char_in c R = true -> char_in c L = true).
Proof.
  unfold collapsing, compute_delimiter_is_whitespace.
  destruct (delimiter d) as [D|]; try discriminate.
  destruct (trimleft d) as [L|]; try discriminate.
  destruct (trimright d) as [R|]; try discriminate.
  intros H. apply andb_prop in H. destruct H as [H H3].
  apply andb_prop in H. destruct H as [H1 H2].
  exists D, L, R. rewrite H3.
  repeat split; auto; intros c; now apply str_subset_spec.
Qed.

(** X10, collapsing dialects.  Where the delimiter and the right-trim
    characters are all left-trim characters and the containment test
    succeeds, as in the whitespace dialect, no field of an input without
    the quote character is empty: runs of delimiters, and delimiters at the
    start and at the end of a line, produce no field. *)
Theorem collapsing_no_empty_field (d : Dialect) (input : list ascii) :
  collapsing d = true ->
  quote_free d input = true ->
  Forall (fun l => forallb nonempty_field (items l) = true)
         (fst (Reader_iter d input)).
Proof.
  intros Hc Hq.
  destruct (collapsing_inv d Hc) as (D & L & R & HD & HL & HR & Hdiw & HDL & HRL).
  unfold Reader_iter. rewrite Hdiw.
  apply (run_unquoted_inv d true D HD nonempty_field); auto.
  - intros f Hne Hb. unfold buffer_ok in Hb.
    apply andb_prop in Hb. destruct Hb as [_ Hhead].
    destruct f as [|c rest]; [contradiction|].
    apply negb_true_iff in Hhead.
    unfold _is_ignore_left in Hhead. rewrite HL in Hhead.
    assert (HcR : char_in c R = false).
    { destruct (char_in c R) eqn:E; auto.
      rewrite (HRL c E) in Hhead. discriminate. }
    unfold _trimright, rstrip, join. rewrite HR.
    rewrite list_ascii_of_string_of_list_ascii. cbn [rstrip_list].
    destruct (rstrip_list R rest); [rewrite HcR|]; reflexivity.
  - right. split; auto. intros c Hcd.
    unfold _is_ignore_left. rewrite HL. now apply HDL.
  - split; reflexivity.
Qed.

Lemma collapsing_no_empty_field_witness :
  Forall (fun l => forallb nonempty_field (items l) = true)
         (fst (Reader_iter WhitespaceDialect
                 (chars "  a   b " ++ [TAB; LF; TAB] ++ chars "c  "))).
Proof.
  apply (collapsing_no_empty_field WhitespaceDialect
           (chars "  a   b " ++ [TAB; LF; TAB] ++ chars "c  ")
           eq_refl eq_refl).
Defined.

(** ** Field counts *)

Lemma split_on_length delims ln :
  length (split_on delims ln)
  = S (length (filter (fun c => char_in c delims) ln)).
Proof.
  induction ln as [|c ln IH]; [reflexivity|].
  cbn [split_on filter]. destruct (char_in c delims); cbn [length].
  - now rewrite IH.
  - destruct (split_on delims ln); cbn [length] in *; lia.
Qed.

(** X11, how many fields.  Under the conditions of the split-and-trim
    refinement (delimiters that are not left-trim characters, no trailing
    field drop, no quote and no comment character in the input), a row has
    one field more than its line has delimiter characters. *)
Theorem field_count (d : Dialect) (input : list ascii) :
  compute_delimiter_is_whitespace d = Some false ->
  delimiter_not_left_trimmed d = true ->
  forallb (plain_char d) input = true ->
  map (fun l => length (items l)) (fst (Reader_iter d input))
  = map (fun ln => S (count_delimiters d ln))
        (filter (fun ln => negb (blank_line d ln)) (input_lines input)).
Proof.
  intros Hdiw Hdis Hp. unfold Reader_iter. rewrite Hdiw.
  destruct (compute_some d false Hdiw) as (D & R & HD & HR & _).
  destruct (run_lines d D R HD HR Hdis (length input) input initial_state)
    as [Hrows _]; auto.
  rewrite <- (map_map items (@length Field)), Hrows.
  unfold reference_rows. rewrite map_map.
  apply map_ext. intros ln.
  unfold reference_fields, count_delimiters. rewrite HD.
  rewrite length_map, split_on_length.
  f_equal. f_equal. apply filter_ext. intros c.
  unfold is_delimiter_char, _is_delimiter. now rewrite HD.
Qed.

Lemma field_count_witness :
  map (fun l => length (items l))
      (fst (Reader_iter DefaultDialect (chars ",a,, b" ++ [LF; LF] ++ chars "c")))
  = [4%nat; 1%nat].
Proof.
  apply (field_count DefaultDialect (chars ",a,, b" ++ [LF; LF] ++ chars "c"));
    reflexivity.
Defined.

(** ** The comment character inside a line *)

Lemma step_commentchar d cc diw st c :
  mode st <> MODE_FIRST ->
  step (with_commentchar d cc) diw st c = step d diw st c.
Proof.
  destruct st as [[] ? ? ? ? ? ? ? ?]; cbn [mode]; intros H;
    try contradiction; reflexivity.
Qed.

Lemma step_stays_in_line d diw st c :
  mode st <> MODE_FIRST ->
  is_newline c = false ->
  match step d diw st c with
  | Continue st' => mode st' <> MODE_FIRST
  | Yield _ _ => False
  | Raise _ => True
  end.
Proof.
  unfold is_newline.
  unfold step, yielding, yield_line, next_field, set_field, set_mode, advance.
  destruct st as [[] ? ? ? ? ? ? ? ?]; cbn [mode]; intros H Hn;
    try contradiction; rewrite Hn; simpl; split_tests; simpl;
    auto; discriminate.
Qed.

(** X12, the comment character inside a line.  Once a line has started (the
    reader is in any mode but [MODE_FIRST]), what the reader makes of the
    rest of the line, up to the newline or the end of the stream, does not
    depend on the comment character of the dialect: it is an ordinary
    character there. *)
Theorem comment_char_only_at_line_start d cc diw (seg : list ascii) :
  forall st,
    mode st <> MODE_FIRST ->
    no_newline seg = true ->
    run (with_commentchar d cc) diw st seg = run d diw st seg.
Proof.
  unfold no_newline.
  induction seg as [|c seg IH]; intros st Hm Hn; cbn [run forallb] in *.
  - reflexivity.
  - apply andb_prop in Hn. destruct Hn as [Hc Hn].
    apply negb_true_iff in Hc.
    rewrite (step_commentchar d cc diw st c Hm).
    pose proof (step_stays_in_line d diw st c Hm Hc) as Hs.
    destruct (step d diw st c) as [s1|l s1|e]; try contradiction; auto.
Qed.

Lemma comment_char_only_at_line_start_witness :
  run (with_commentchar DefaultDialect None) false
      (mkState MODE_OUTSIDE [] ["a"] 1 2 2 None None None) (chars "#b,c")
  = run DefaultDialect false
        (mkState MODE_OUTSIDE [] ["a"] 1 2 2 None None None) (chars "#b,c").
Proof.
  apply (comment_char_only_at_line_start DefaultDialect None false (chars "#b,c")
           (mkState MODE_OUTSIDE [] ["a"] 1 2 2 None None None)).
  - discriminate.
  - reflexivity.
Defined.

(** ** Tables of quoted fields *)

Section QuotedTable.

Variable d : Dialect.
Variable diw : bool.
Variables q dl nl : ascii.
Hypothesis Hsep : separates d q dl nl = true.

Lemma separates_inv :
  quotes_with d q = true
  /\ _is_delimiter d dl = Some true
  /\ _is_quote d dl = false
  /\ is_newline nl = true
  /\ _is_delimiter d nl = Some false
  /\ _is_quote d nl = false.
Proof.
  pose proof Hsep as H. unfold separates in H.
  apply andb_prop in H. destruct H as [H H4].
  apply andb_prop in H. destruct H as [H H3].
  apply andb_prop in H. destruct H as [H H2].
  apply andb_prop in H. destruct H as [H0 H1].
  apply negb_true_iff in H2, H4.
  assert (Hnlq : _is_quote d nl = false).
  { rewrite (is_quote_eqb d q H0).
    destruct (Ascii.eqb nl q) eqn:E; auto.
    apply Ascii.eqb_eq in E. subst nl.
    destruct (quotes_with_inv d q H0) as (_ & Hn & _). congruence. }
  unfold is_delimiter_char, _is_delimiter in *.
  destruct (delimiter d) as [D|]; try discriminate.
  rewrite H1, H4. auto 10.
Qed.

Lemma scan_quote_field_from f st :
  unquoted_start_mode (Some (mode st)) = true ->
  exists st',
    scan d diw st (quote_field q f) = Some ([], st')
    /\ mode st' = MODE_INSIDE_QUOTED_QUOTE
    /\ field st' = field st ++ f
    /\ line st' = line st.
Proof.
  destruct separates_inv as (Hq & _).
  intros Hm. unfold quote_field. cbn [scan].
  destruct (step_open_quote d diw q Hq st Hm) as (s1 & E1 & M1 & F1 & L1).
  rewrite E1.
  destruct (scan_quoted_body d diw q Hq f s1 M1) as (s2 & E2 & M2 & F2 & L2).
  rewrite (scan_app _ _ _ _ _ _ _ E2). cbn [scan].
  rewrite (step_quoted_quote d diw q Hq s2 M2).
  eexists. split; [reflexivity|].
  cbn [set_mode mode field line].
  change (field (advance s2 q)) with (field s2).
  change (line (advance s2 q)) with (line s2).
  rewrite F2, L2, F1, L1. auto.
Qed.

(** After the closing quote, the delimiter closes the field as it is. *)
Lemma step_close_quoted st :
  mode st = MODE_INSIDE_QUOTED_QUOTE ->
  exists st',
    step d diw st dl = Continue st'
    /\ mode st' = MODE_OUTSIDE
    /\ field st' = []
    /\ line st' = line st ++ [join (field st)].
Proof.
  destruct separates_inv as (_ & Hd & Hdq & _).
  intros Hm. unfold step. change (mode (advance st dl)) with (mode st).
  rewrite Hm, Hdq, Hd. eexists. split; [reflexivity|].
  unfold next_field. change (mode (advance st dl)) with (mode st).
  rewrite Hm. auto.
Qed.

(** After the closing quote, the newline yields the row, the last field as
    it is. *)
Lemma step_end_quoted_row st :
  mode st = MODE_INSIDE_QUOTED_QUOTE ->
  exists l st',
    step d diw st nl = Yield l st'
    /\ items l = line st ++ [join (field st)]
    /\ mode st' = MODE_FIRST /\ field st' = [] /\ line st' = [].
Proof.
  destruct separates_inv as (_ & _ & _ & Hn & Hnd & Hnq).
  unfold is_newline in Hn.
  intros Hm. unfold step. change (mode (advance st nl)) with (mode st).
  rewrite Hm, Hnq, Hnd, Hn. unfold yielding. do 2 eexists.
  split; [reflexivity|].
  unfold yield_line, next_field. change (mode (advance st nl)) with (mode st).
  rewrite Hm. cbn. auto.
Qed.

Lemma scan_quote_row row : forall st,
  row <> [] ->
  unquoted_start_mode (Some (mode st)) = true ->
  field st = [] ->
  exists st',
    scan d diw st (quote_row q dl row) = Some ([], st')
    /\ mode st' = MODE_INSIDE_QUOTED_QUOTE
    /\ line st' ++ [join (field st')] = line st ++ map join row.
Proof.
  induction row as [|f rest IH]; intros st Hne Hm Hf; [contradiction|].
  destruct (scan_quote_field_from f st Hm) as (s1 & E1 & M1 & F1 & L1).
  rewrite Hf in F1. cbn [app] in F1.
  destruct rest as [|g rest].
  - exists s1. cbn [quote_row map]. rewrite E1, F1, L1. auto.
  - change (quote_row q dl (f :: g :: rest))
      with (quote_field q f ++ dl :: quote_row q dl (g :: rest)).
    rewrite (scan_app _ _ _ _ _ _ _ E1). cbn [scan].
    destruct (step_close_quoted s1 M1) as (s2 & E2 & M2 & F2 & L2).
    rewrite E2.
    destruct (IH s2) as (s3 & E3 & M3 & L3);
      [discriminate|now rewrite M2|exact F2|].
    exists s3. rewrite E3. split; auto. split; auto.
    rewrite L3, L2, L1, F1. cbn [map]. now rewrite <- app_assoc.
Qed.

Lemma run_quote_table rows : forall st,
  forallb (fun row => negb (Nat.eqb (length row) 0)) rows = true ->
  mode st = MODE_FIRST -> field st = [] -> line st = [] ->
  map items (fst (run d diw st (quote_table q dl nl rows)))
  = map (map join) rows
  /\ snd (run d diw st (quote_table q dl nl rows)) = Exhausted.
Proof.
  induction rows as [|row rows IH]; intros st Hne Hm Hf Hl.
  - cbn [quote_table run]. unfold finish. now rewrite Hm.
  - cbn [forallb] in Hne. apply andb_prop in Hne. destruct Hne as [Hrow Hne].
    assert (Hrow' : row <> []) by (destruct row; [discriminate|discriminate]).
    cbn [quote_table].
    destruct (scan_quote_row row st Hrow') as (s1 & E1 & M1 & L1);
      [now rewrite Hm|exact Hf|].
    rewrite (run_app _ _ _ _ _ _ _ E1). cbn [app fst snd run].
    destruct (step_end_quoted_row s1 M1) as (l & s2 & E2 & I2 & M2 & F2 & L2).
    rewrite E2. unfold emit. cbn [fst snd map].
    destruct (IH s2 Hne M2 F2 L2) as [Hrows Hout].
    rewrite Hrows, Hout, I2, L1, Hl. auto.
Qed.

End QuotedTable.

Lemma map_join_chars (row : list string) : map join (map chars row) = row.
Proof.
  induction row as [|s row IH]; [reflexivity|].
  cbn [map]. rewrite IH. unfold join, chars.
  now rewrite string_of_list_ascii_of_string.
Qed.



(** * Properties of the result printers *)

Lemma sappend_assoc (a b c : string) :
  ((a ++ b) ++ c = a ++ (b ++ c))%string.
Proof. induction a as [|x a IH]; simpl; [reflexivity|now rewrite IH]. Qed.

Lemma sappend_nil_r (a : string) : (a ++ "" = a)%string.
Proof. induction a as [|x a IH]; simpl; [reflexivity|now rewrite IH]. Qed.

Section PrinterFacts.

Variable Value : Type.
Variable dumps : Value -> string.
Variable writerow : Value -> Value -> string.


Lemma json_entries_cons row rest :
  json_entries Value dumps (row :: rest)
  = (entry_of Value dumps row ++ json_more Value dumps rest)%string.
Proof.
  unfold json_entries. revert row.
  induction rest as [|r rest IH]; intros row; cbn [map String.concat json_more].
  - now rewrite sappend_nil_r.
  - cbn [map String.concat] in IH. now rewrite IH.
Qed.

(** Once a result was printed, every further one comes after a comma. *)
Lemma json_results_more data : forall n out,
  0 < n ->
  results Value (Json Value dumps) (Some n) data out
  = (None, Some (n + Z.of_nat (length data)),
     (out ++ json_more Value dumps data)%string).
Proof.
  induction data as [|[title result] rest IH]; intros n out Hn.
  - cbn [results length json_more]. now rewrite Z.add_0_r, sappend_nil_r.
  - cbn [results p_result Json]. unfold Json_result.
    destruct n as [|p|p]; try lia.
    rewrite IH by lia. unfold print, print_no_end.
    cbn [json_more entry_of fst snd length]. unfold json_separator.
    rewrite !sappend_assoc.
    replace (Z.pos p + 1 + Z.of_nat (length rest))
      with (Z.pos p + Z.of_nat (S (length rest))) by lia.
    reflexivity.
Qed.

Lemma json_results_first data out :
  results Value (Json Value dumps) (Some 0) data out
  = (None, Some (Z.of_nat (length data)),
     (out ++ json_entries Value dumps data)%string).
Proof.
  destruct data as [|[title result] rest].
  - cbn. now rewrite sappend_nil_r.
  - rewrite json_entries_cons.
    cbn [results p_result Json]. unfold Json_result.
    rewrite json_results_more by lia. unfold print_no_end.
    cbn [entry_of fst snd length]. rewrite !sappend_assoc.
    replace (0 + 1 + Z.of_nat (length rest))
      with (Z.of_nat (S (length rest))) by lia.
    reflexivity.
Qed.

Lemma csv_results_open data : forall out,
  results Value (Csv Value writerow) (Some tt) data out
  = (None, Some tt, (out ++ csv_rows Value writerow data)%string).
Proof.
  induction data as [|[title result] rest IH]; intros out.
  - cbn. now rewrite sappend_nil_r.
  - cbn [results p_result Csv]. unfold Csv_result.
    rewrite IH. unfold print_no_end. cbn [csv_rows fst snd].
    now rewrite sappend_assoc.
Qed.

End PrinterFacts.

(** X14, a [Json] block.  A [with] block over a closed [Json] printer prints
    an opening brace, the entries of the results in order with a comma
    between two of them and none after the last, and a closing brace, and
    leaves the printer closed, whatever the number of results; over a
    printer that is already open it raises [ValueError], prints nothing and
    leaves the count as it was. *)
Theorem json_with_block (Value : Type) (dumps : Value -> string)
        (data : list (Value * Value)) (out : Stdout) :
  with_results Value (Json Value dumps) None data out
  = (None, None,
     (out ++ "{" ++ NL ++ json_entries Value dumps data ++ NL ++ "}" ++ NL)%string)
  /\ (forall n,
         with_results Value (Json Value dumps) (Some n) data out
         = (Some (ValueError "Already open"), Some n, out)).
Proof.
  split; [|reflexivity].
  unfold with_results. cbn [p_enter p_exit Json Json_enter].
  rewrite json_results_first. unfold Json_exit, print.
  now rewrite !sappend_assoc.
Qed.

Lemma json_results_never_fail_open Value dumps data : forall n out,
  fst (fst (results Value (Json Value dumps) (Some n) data out)) = None.
Proof.
  induction data as [|[title result] rest IH]; intros n out; [reflexivity|].
  cbn [results p_result Json]. unfold Json_result. apply IH.
Qed.

Lemma csv_results_never_fail_open Value writerow data : forall w out,
  fst (fst (results Value (Csv Value writerow) (Some w) data out)) = None.
Proof.
  induction data as [|[title result] rest IH]; intros w out; [reflexivity|].
  cbn [results p_result Csv]. unfold Csv_result. apply IH.
Qed.


(** X16, a [Csv] block.  A [with] block over a closed [Csv] printer prints
    the rows of the results in order and nothing else, and leaves the
    printer closed; over a printer that is already open it raises
    [ValueError] and prints nothing. *)
Theorem csv_with_block (Value : Type) (writerow : Value -> Value -> string)
        (data : list (Value * Value)) (out : Stdout) :
  with_results Value (Csv Value writerow) None data out
  = (None, None, (out ++ csv_rows Value writerow data)%string)
  /\ with_results Value (Csv Value writerow) (Some tt) data out
     = (Some (ValueError "Already open"), Some tt, out).
Proof.
  split; [|reflexivity].
  unfold with_results. cbn [p_enter p_exit Csv Csv_enter].
  now rewrite csv_results_open.
Qed.

(** * The reader against splitting on runs of delimiters *)

Lemma rstrip_list_all_kept cs f :
  forallb (fun c => negb (char_in c cs)) f = true -> rstrip_list cs f = f.
Proof.
  induction f as [|c rest IH]; [reflexivity|].
  cbn [forallb rstrip_list]. intros H.
  apply andb_prop in H. destruct H as [Hc Hrest].
  apply negb_true_iff in Hc.
  rewrite (IH Hrest). destruct rest; [now rewrite Hc|reflexivity].
Qed.

Lemma char_in_app c a b :
  char_in c (a ++ b)%string = char_in c a || char_in c b.
Proof.
  induction a as [|x a IH]; [reflexivity|].
  simpl. rewrite IH. now rewrite orb_assoc.
Qed.

Lemma trims_delimiters_only_inv d :
  trims_delimiters_only d = true ->
  exists D L R,
    delimiter d = Some D /\ trimleft d = Some L /\ trimright d = Some R
    /\ compute_delimiter_is_whitespace d = Some true
    /\ (forall c, char_in c D = true -> char_in c L = true)
    /\ (forall c, char_in c R = true -> char_in c L = true)
    /\ (forall c, char_in c L = true -> is_newline c = false ->
                  char_in c D = true).
Proof.
  unfold trims_delimiters_only. intros H.
  apply andb_prop in H. destruct H as [Hc Hl].
  destruct (collapsing_inv d Hc) as (D & L & R & HD & HL & HR & Hdiw & HDL & HRL).
  exists D, L, R. rewrite HD, HL in Hl.
  repeat split; auto.
  intros c Hin Hn.
  pose proof (str_subset_spec _ _ c Hl Hin) as H.
  rewrite char_in_app in H. unfold is_newline in Hn. rewrite Hn in H.
  now rewrite orb_false_r in H.
Qed.

Section Words.

Variable d : Dialect.
Variables D L R : string.
Hypothesis HD : delimiter d = Some D.
Hypothesis HL : trimleft d = Some L.
Hypothesis HR : trimright d = Some R.
Hypothesis HDL : forall c, char_in c D = true -> char_in c L = true.
Hypothesis HRL : forall c, char_in c R = true -> char_in c L = true.
Hypothesis HLD :
  forall c, char_in c L = true -> is_newline c = false -> char_in c D = true.

Lemma word_char c :
  is_newline c = false -> char_in c D = false ->
  _is_ignore_left d c = false /\ char_in c R = false.
Proof.
  intros Hn Hc. unfold _is_ignore_left. rewrite HL.
  assert (Hl : char_in c L = false).
  { destruct (char_in c L) eqn:E; auto. rewrite (HLD c E Hn) in Hc. discriminate. }
  split; auto.
  destruct (char_in c R) eqn:E; auto. rewrite (HRL c E) in Hl. discriminate.
Qed.

Lemma words_step_inside diw st c :
  mode st = MODE_INSIDE ->
  plain_char d c = true ->
  is_newline c = false ->
  step d diw st c
  = Continue (if char_in c D then next_field d (advance st c)
              else set_field (field st ++ [c]) (advance st c)).
Proof.
  intros Hm Hp Hn. destruct (plain_char_inv d c Hp) as [Hq _].
  unfold is_newline in Hn. unfold step, _is_delimiter.
  change (mode (advance st c)) with (mode st).
  change (field (advance st c)) with (field st).
  rewrite Hm, Hq, Hn, HD. now destruct (char_in c D).
Qed.

Lemma words_step_start diw st c :
  mode st = MODE_OUTSIDE \/ mode st = MODE_FIRST ->
  plain_char d c = true ->
  is_newline c = false ->
  step d diw st c
  = Continue (if char_in c D then advance st c
              else set_field (field st ++ [c])
                             (set_mode MODE_INSIDE (advance st c))).
Proof.
  intros Hm Hp Hn. destruct (plain_char_inv d c Hp) as [Hq Hc].
  destruct (char_in c D) eqn:Ed.
  - assert (Hi : _is_ignore_left d c = true)
      by (unfold _is_ignore_left; rewrite HL; now apply HDL).
    unfold is_newline in Hn. unfold step.
    change (mode (advance st c)) with (mode st).
    destruct Hm as [Hm|Hm]; now rewrite Hm, Hn, Hi.
  - destruct (word_char c Hn Ed) as [Hi _].
    unfold is_newline in Hn. unfold step, _is_delimiter.
    change (mode (advance st c)) with (mode st).
    change (field (advance st c)) with (field st).
    destruct Hm as [Hm|Hm]; rewrite Hm, Hn, Hi, Hq, HD, Ed, ?Hc; reflexivity.
Qed.

Lemma words_step_newline diw st nl :
  mode st = MODE_INSIDE \/ mode st = MODE_OUTSIDE ->
  plain_char d nl = true ->
  is_newline nl = true ->
  step d diw st nl = yielding (yield_line d diw (advance st nl)).
Proof.
  intros Hm Hp Hn. destruct (plain_char_inv d nl Hp) as [Hq _].
  unfold is_newline in Hn. unfold step.
  change (mode (advance st nl)) with (mode st).
  destruct Hm as [Hm|Hm]; rewrite Hm; now rewrite ?Hq, Hn.
Qed.

Lemma flushed_word st :
  mode st = MODE_INSIDE ->
  kept_whole R (field st) = true ->
  flushed d true st = line st ++ [join (field st)].
Proof.
  unfold flushed, yield_line, next_field, _trimright, rstrip, join, kept_whole.
  intros Hm Hk. rewrite Hm, HR. cbn.
  now rewrite list_ascii_of_string_of_list_ascii, (rstrip_list_all_kept R _ Hk).
Qed.

Lemma flushed_between st :
  mode st = MODE_OUTSIDE -> flushed d true st = line st.
Proof. unfold flushed, yield_line. now intros ->. Qed.

Lemma words_cons_delimiter c ln :
  char_in c D = true -> words d (c :: ln) = words d ln.
Proof. unfold words. rewrite HD. cbn [split_on]. now intros ->. Qed.

Lemma words_cons_char c ln :
  char_in c D = false -> words d (c :: ln) = pending_words D [c] ln.
Proof.
  unfold words, pending_words. rewrite HD. cbn [split_on]. intros ->.
  destruct (split_on_cons D ln) as (p & ps & ->). reflexivity.
Qed.

Lemma scan_words ln :
  forallb (plain_char d) ln = true ->
  no_newline ln = true ->
  (forall st,
      mode st = MODE_INSIDE ->
      kept_whole R (field st) = true ->
      exists st',
        scan d true st ln = Some ([], st')
        /\ (mode st' = MODE_INSIDE \/ mode st' = MODE_OUTSIDE)
        /\ flushed d true st' = line st ++ pending_words D (field st) ln)
  /\ (forall st,
        mode st = MODE_OUTSIDE ->
        field st = [] ->
        exists st',
          scan d true st ln = Some ([], st')
          /\ (mode st' = MODE_INSIDE \/ mode st' = MODE_OUTSIDE)
          /\ flushed d true st' = line st ++ words d ln).
Proof.
  unfold no_newline.
  induction ln as [|c ln IH]; intros Hp Hn; cbn [forallb] in Hp, Hn.
  - split; intros st Hm Hf; exists st; cbn [scan]; (split; [reflexivity|]).
    + split; auto. rewrite (flushed_word st Hm Hf).
      unfold pending_words. simpl. now rewrite app_nil_r.
    + split; auto. rewrite (flushed_between st Hm).
      unfold words. rewrite HD. simpl. now rewrite app_nil_r.
  - apply andb_prop in Hp. destruct Hp as [Hpc Hp].
    apply andb_prop in Hn. destruct Hn as [Hnc Hn].
    apply negb_true_iff in Hnc.
    destruct (IH Hp Hn) as [IHin IHout]. clear IH.
    destruct (split_on_cons D ln) as (p & ps & Esplit).
    split; intros st Hm Hf; cbn [scan].
    + rewrite (words_step_inside true st c Hm Hpc Hnc).
      unfold pending_words. cbn [split_on].
      destruct (char_in c D) eqn:Ec.
      * destruct (IHout (next_field d (advance st c)) eq_refl eq_refl)
          as (st' & E & M & F).
        exists st'. rewrite E. split; auto. split; auto.
        rewrite F. unfold next_field. cbn [line mode].
        change (mode (advance st c)) with (mode st).
        change (line (advance st c)) with (line st).
        change (field (advance st c)) with (field st).
        rewrite Hm. cbn [mode_eqb negb].
        unfold _trimright, rstrip, join. rewrite HR.
        rewrite list_ascii_of_string_of_list_ascii.
        rewrite (rstrip_list_all_kept R _ Hf), app_nil_r, <- app_assoc.
        unfold words. rewrite HD. reflexivity.
      * destruct (word_char c Hnc Ec) as [_ HcR].
        destruct (IHin (set_field (field st ++ [c]) (advance st c)) Hm)
          as (st' & E & M & F).
        { unfold kept_whole in *. cbn [set_field field].
          rewrite forallb_app, Hf. cbn [forallb]. now rewrite HcR. }
        exists st'. rewrite E. split; auto. split; auto.
        rewrite F. unfold pending_words. rewrite Esplit.
        cbn [set_field field line].
        change (line (advance st c)) with (line st).
        now rewrite <- app_assoc.
    + rewrite (words_step_start true st c (or_introl Hm) Hpc Hnc).
      destruct (char_in c D) eqn:Ec.
      * rewrite (words_cons_delimiter c ln Ec).
        destruct (IHout (advance st c) Hm Hf) as (st' & E & M & F).
        exists st'. rewrite E. auto.
      * destruct (word_char c Hnc Ec) as [_ HcR].
        rewrite (words_cons_char c ln Ec).
        destruct (IHin (set_field (field st ++ [c])
                                  (set_mode MODE_INSIDE (advance st c)))
                       eq_refl)
          as (st' & E & M & F).
        { unfold kept_whole. cbn [set_field field]. rewrite Hf.
          cbn [app forallb]. now rewrite HcR. }
        exists st'. rewrite E. split; auto. split; auto.
        rewrite F. cbn [set_field set_mode field line].
        change (line (advance st c)) with (line st).
        now rewrite Hf.
Qed.

Lemma pending_words_nonempty f ln : pending_words D f ln <> [].
Proof.
  unfold pending_words. destruct (split_on_cons D ln) as (p & ps & ->).
  discriminate.
Qed.

Lemma scan_words_line ln :
  forallb (plain_char d) ln = true ->
  no_newline ln = true ->
  forall st,
    mode st = MODE_FIRST -> field st = [] -> line st = [] ->
    exists st',
      scan d true st ln = Some ([], st')
      /\ ((words d ln = []
           /\ mode st' = MODE_FIRST /\ field st' = [] /\ line st' = [])
          \/ (words d ln <> []
              /\ (mode st' = MODE_INSIDE \/ mode st' = MODE_OUTSIDE)
              /\ flushed d true st' = words d ln)).
Proof.
  induction ln as [|c ln IH]; intros Hp Hn st Hm Hf Hl.
  - exists st. split; auto. left. unfold words. rewrite HD. auto.
  - pose proof Hp as Hp'. pose proof Hn as Hn'.
    unfold no_newline in Hn'. cbn [forallb] in Hp', Hn'.
    apply andb_prop in Hp'. destruct Hp' as [Hpc Hpl].
    apply andb_prop in Hn'. destruct Hn' as [Hnc Hnl].
    apply negb_true_iff in Hnc.
    cbn [scan]. rewrite (words_step_start true st c (or_intror Hm) Hpc Hnc).
    destruct (char_in c D) eqn:Ec.
    + rewrite (words_cons_delimiter c ln Ec).
      apply (IH Hpl Hnl (advance st c) Hm Hf Hl).
    + destruct (word_char c Hnc Ec) as [_ HcR].
      rewrite (words_cons_char c ln Ec).
      destruct (scan_words ln Hpl Hnl) as [Hin _].
      destruct (Hin (set_field (field st ++ [c])
                               (set_mode MODE_INSIDE (advance st c)))
                    eq_refl)
        as (st' & E & M & F).
      { unfold kept_whole. cbn [set_field field]. rewrite Hf.
        cbn [app forallb]. now rewrite HcR. }
      exists st'. split; auto. right.
      split; [apply pending_words_nonempty|]. split; auto.
      rewrite F. cbn [set_field set_mode field line].
      change (line (advance st c)) with (line st).
      now rewrite Hf, Hl.
Qed.

Lemma run_word_rows n : forall input st,
  (length input <= n)%nat ->
  forallb (plain_char d) input = true ->
  mode st = MODE_FIRST -> field st = [] -> line st = [] ->
  map items (fst (run d true st input)) = word_rows d input
  /\ snd (run d true st input) = Exhausted.
Proof.
  induction n as [|n IH]; intros input st Hlen Hp Hm Hf Hl;
    destruct (input_lines_split input)
      as (ln & Hn & [[-> E]|(nl & more & Hnl & -> & E)]);
    unfold word_rows; rewrite E; cbn [map filter].
  1, 3:
    destruct (scan_words_line ln Hp Hn st Hm Hf Hl)
      as (st' & Es & [(Hb & M & F & L')|(Hb & M & F)]);
    rewrite (run_scan _ _ _ _ _ _ Es); unfold finish;
    [ rewrite Hb, M; auto
    | destruct (words d ln) as [|w ws] eqn:Ew; [contradiction|];
      destruct M as [M|M]; rewrite M; cbn [nonempty length Nat.eqb negb map fst snd app];
      fold (flushed d true st'); rewrite F; auto ].
  - rewrite length_app in Hlen. cbn [length] in Hlen. lia.
  - rewrite forallb_app in Hp. cbn [forallb] in Hp.
    apply andb_prop in Hp. destruct Hp as [Hpl Hp].
    apply andb_prop in Hp. destruct Hp as [Hpn Hpm].
    rewrite length_app in Hlen. cbn [length] in Hlen.
    assert (Hlen' : (length more <= n)%nat) by lia.
    fold (word_rows d more).
    destruct (scan_words_line ln Hpl Hn st Hm Hf Hl)
      as (st' & Es & [(Hb & M & F & L')|(Hb & M & F)]);
      rewrite (run_app _ _ _ _ _ _ _ Es); cbn [app fst snd run].
    + rewrite Hb. cbn [nonempty length Nat.eqb negb].
      rewrite (step_first_newline d true st' nl M Hnl).
      apply (IH more (advance st' nl) Hlen' Hpm M F L').
    + rewrite (words_step_newline true st' nl M Hpn Hnl).
      unfold yielding, emit. cbn [fst snd map].
      fold (flushed d true (advance st' nl)).
      rewrite flushed_advance, F.
      destruct (IH more (snd (yield_line d true (advance st' nl)))
                   Hlen' Hpm eq_refl eq_refl eq_refl) as [Hrows Hout].
      rewrite Hout, Hrows. split; auto.
      destruct (words d ln) as [|w ws]; [contradiction|]. reflexivity.
Qed.

End Words.

(** X17, the whitespace dialect and words.  In a dialect whose delimiter
    and right-trim characters are left-trim characters, whose left-trim
    characters are delimiter or newline characters and whose containment
    test succeeds, as in the whitespace dialect, on an input without quote
    and comment characters the rows are the lines that hold a word, and the
    fields of a row are the words of its line: the pieces between runs of
    delimiter characters, none of them empty. *)
Theorem reader_splits_words (d : Dialect) (input : list ascii) :
  trims_delimiters_only d = true ->
  forallb (plain_char d) input = true ->
  map items (fst (Reader_iter d input)) = word_rows d input
  /\ snd (Reader_iter d input) = Exhausted.
Proof.
  intros Ht Hp.
  destruct (trims_delimiters_only_inv d Ht)
    as (D & L & R & HD & HL & HR & Hdiw & HDL & HRL & HLD).
  unfold Reader_iter. rewrite Hdiw.
  apply (run_word_rows d D L R HD HL HR HDL HRL HLD (length input)); auto.
Qed.

Lemma reader_splits_words_witness :
  map items (fst (Reader_iter WhitespaceDialect
                    (chars "  a   b, " ++ [TAB; CR; LF] ++ chars "   "
                     ++ [LF; TAB] ++ chars "c ")))
  = [["a"; "b,"]; ["c"]]
  /\ snd (Reader_iter WhitespaceDialect
            (chars "  a   b, " ++ [TAB; CR; LF] ++ chars "   "
             ++ [LF; TAB] ++ chars "c "))
     = Exhausted.
Proof.
  apply (reader_splits_words WhitespaceDialect
           (chars "  a   b, " ++ [TAB; CR; LF] ++ chars "   "
            ++ [LF; TAB] ++ chars "c "));
    reflexivity.
Defined.

(** * Rows as they are yielded *)

Lemma run_app_none d diw st pre post :
  scan d diw st pre = None ->
  run d diw st (pre ++ post) = run d diw st pre.
Proof.
  revert st. induction pre as [|c pre IH]; intros st H; simpl in *.
  - discriminate.
  - destruct (step d diw st c) as [s1|l s1|e]; auto.
    destruct (scan d diw s1 pre) as [[ls s2]|] eqn:E; try discriminate.
    now rewrite (IH s1 E).
Qed.

Lemma yielded_app d diw post pre : forall st,
  exists more,
    yielded d diw st (pre ++ post) = yielded d diw st pre ++ more.
Proof.
  induction pre as [|c pre IH]; intros st; cbn [app yielded].
  - now exists (yielded d diw st post).
  - destruct (step d diw st c) as [s1|l s1|e].
    + apply IH.
    + destruct (IH s1) as (more & ->). now exists more.
    + now exists [].
Qed.

Lemma run_yielded d diw input : forall st,
  exists flush,
    (length flush <= 1)%nat
    /\ fst (run d diw st input) = yielded d diw st input ++ flush.
Proof.
  induction input as [|c rest IH]; intros st; cbn [run yielded].
  - exists (fst (finish d diw st)). split; auto.
    unfold finish. destruct (mode st); simpl; lia.
  - destruct (step d diw st c) as [s1|l s1|e].
    + apply IH.
    + destruct (IH s1) as (flush & Hlen & E). exists flush. split; auto.
      unfold emit. cbn [fst]. now rewrite E.
    + exists []. split; [simpl; lia|reflexivity].
Qed.


(** * Indented comment lines *)

Lemma scan_indentation d diw ws : forall st,
  mode st = MODE_FIRST ->
  indentation d ws = true ->
  exists st',
    scan d diw st ws = Some ([], st')
    /\ mode st' = MODE_FIRST
    /\ field st' = field st
    /\ line st' = line st
    /\ cur_line st' = cur_line st.
Proof.
  unfold indentation.
  induction ws as [|x ws IH]; intros st Hm Hw; cbn [scan forallb] in *.
  - exists st. auto.
  - apply andb_prop in Hw. destruct Hw as [Hx Hw].
    apply andb_prop in Hx. destruct Hx as [Hi Hn].
    apply negb_true_iff in Hn.
    assert (E : step d diw st x = Continue (advance st x)).
    { unfold step. change (mode (advance st x)) with (mode st).
      unfold is_newline in Hn. now rewrite Hm, Hn, Hi. }
    rewrite E.
    destruct (IH (advance st x) Hm Hw) as (st' & Es & M & F & Ln & C).
    exists st'. rewrite advance_line, Hn in C. auto.
Qed.

(** X19, indented comments.  A comment character counts as the start of a
    line also after left-trim characters: a line of left-trim characters,
    then the comment character, then anything up to the newline, is
    consumed without a field or a row, and leaves the reader at the start
    of the next line with the line counter one further. *)
Theorem indented_comment_line (d : Dialect) diw st ws c body nl :
  mode st = MODE_FIRST ->
  indentation d ws = true ->
  _is_comment d c = true ->
  is_newline c = false ->
  _is_ignore_left d c = false ->
  no_newline body = true ->
  is_newline nl = true ->
  exists st',
    scan d diw st (ws ++ c :: body ++ [nl]) = Some ([], st')
    /\ mode st' = MODE_FIRST
    /\ field st' = field st
    /\ line st' = line st
    /\ cur_line st' = cur_line st + 1.
Proof.
  intros Hm Hw Hc Hn Hi Hb Hnl.
  destruct (scan_indentation d diw ws st Hm Hw) as (s1 & E1 & M1 & F1 & L1 & C1).
  destruct (scan_comment_line d diw s1 c body nl M1 Hc Hn Hi Hb Hnl)
    as (s2 & E2 & M2 & F2 & L2 & C2).
  exists s2. rewrite (scan_app _ _ _ _ _ _ _ E1), E2.
  repeat split; congruence.
Qed.

Lemma indented_comment_line_witness :
  exists st',
    scan DefaultDialect false initial_state
         (chars "  " ++ "#"%char :: chars " a,b" ++ [LF])
    = Some ([], st')
    /\ mode st' = MODE_FIRST
    /\ field st' = field initial_state
    /\ line st' = line initial_state
    /\ cur_line st' = cur_line initial_state + 1.
Proof.
  apply (indented_comment_line DefaultDialect false initial_state
           (chars "  ") "#"%char (chars " a,b") LF);
    reflexivity.
Defined.
